(** * eth-videoz: the acquisition pipeline of [eth_videoz.py]

    A shallow embedding of the parts of [src/eth_videoz/eth_videoz.py] that
    the specification talks about and of the functions around them, and the
    properties proved of them:

    - [Transfer]: [download_file] and [get_remote_file_size];
    - [Limiter]: [gather_with_concurrency] as a transition system;
    - [Media]: [download_video_subtitles_and_maybe_audio];
    - [Classifier]: [get_series_type];
    - [Orchestrator]: the tier buckets and download phases of [main];
    - [Timestamp]: the [strftime] call of [process_entry];
    - [PyStr], [PyText]: the [str] methods these functions use;
    - [Urls]: [get_urls];
    - [Json]: [extract_video_entries];
    - [Dialog]: the loop of [process_entry] over the links of a page;
    - [Notice]: the star notice at the start of [main];
    - [Schedule]: the order of the events of a run.

    Python values are modelled as the code uses them: dictionaries as finite
    maps, [None] as [option], exceptions as an error result, and the
    collaborators the script drives (the HTTP server, the browser, the
    login forms) as functions that give the answer of each call.

    The embedding comes first, then example inputs ([Examples]), then the
    properties, one module of facts per module of the embedding. *)

From Stdlib Require Import ZArith String Ascii List Lia Bool.
From Stdlib Require Import DecimalString DecimalN DecimalPos.
From stdpp Require Import base option list strings gmap.

Set Default Proof Using "Type".

Open Scope Z_scope.

(** ** Python results *)

(** The exceptions the modelled code can raise. *)
Inductive exn : Type :=
  | AttributeError
  | KeyError
  | IndexError
  | TypeError
  | ValueError
  | TimeoutError
  | SystemExit
  | ClientResponseError (status : Z).

(** A call either returns a value or raises. *)
Inductive result (A : Type) : Type :=
  | Return (a : A)
  | Raise (e : exn).
Arguments Return {A} a.
Arguments Raise {A} e.

Definition is_return {A} (r : result A) : bool :=
  match r with Return _ => true | Raise _ => false end.

(** * ResumableTransfer: [download_file] and [get_remote_file_size] *)

Module Transfer.

(** The [Range] header of a request: absent, [bytes=start-] as sent by
    [download_file], or [bytes=first-last] as sent by
    [get_remote_file_size]. *)
Inductive range_header : Type :=
  | NoRange
  | RangeFrom (start : Z)
  | RangeSpan (first last : Z).

(** What the code reads of an [aiohttp] response: the status, the
    [Content-Length] header (as the integer [int()] makes of it), the total
    after the slash of the [Content-Range] header, and the body as the
    chunks [iter_chunked] yields. *)
Record response : Type := {
  status : Z;
  content_length : option Z;
  content_range : option Z;
  chunks : list (list Byte.byte)
}.

(** The server behind one url. *)
Definition server : Type := range_header → response.

(** [aiohttp]'s [ClientResponse.raise_for_status]: raises for a status of
    400 and above, returns otherwise. *)
Definition raise_for_status (st : Z) : result unit :=
  if 400 <=? st then Raise (ClientResponseError st) else Return tt.

(** The mode [aiofiles.open] is given: ["ab"] or ["wb"]. *)
Inductive open_mode : Type := ab | wb.

(** What a call of [download_file] did. [returned] is how the call ended,
    [opened] the mode the destination was opened in (if it was), [written]
    the bytes passed to [f.write], [progress_total] the total given to the
    progress bar, and [file_after] the destination afterwards ([None] when
    it does not exist). *)
Record outcome : Type := {
  returned : result unit;
  opened : option open_mode;
  written : list Byte.byte;
  progress_total : option Z;
  file_after : option (list Byte.byte)
}.

(** [os.path.getsize(abspath) if os.path.exists(abspath) else 0] *)
Definition getsize (file : option (list Byte.byte)) : Z :=
  match file with
  | Some bytes => Z.of_nat (length bytes)
  | None => 0
  end.

(** The headers of the request: [Range: bytes=start_byte-] when
    [start_byte > 0], none otherwise. *)
Definition request_of (start_byte : Z) : range_header :=
  if 0 <? start_byte then RangeFrom start_byte else NoRange.

Definition untouched (r : result unit) (file : option (list Byte.byte)) : outcome :=
  {| returned := r; opened := None; written := []; progress_total := None;
     file_after := file |}.

(** The file after [open(abspath, mode)] and the writes of [data]. *)
Definition write_file (mode : open_mode) (file : option (list Byte.byte))
    (data : list Byte.byte) : list Byte.byte :=
  match mode with
  | ab => default [] file ++ data
  | wb => data
  end.

(** [download_file(url, abspath)]; [srv] answers for [url], [file] is what
    [abspath] holds. *)
Definition download_file (srv : server) (file : option (list Byte.byte)) : outcome :=
  let start_byte := getsize file in
  let resp := srv (request_of start_byte) in
  let total_size := default 0 (content_length resp) in
  if total_size <=? start_byte then
    untouched (Return tt) file                     (* "File already downloaded" *)
  else if status resp =? 416 then
    untouched (Return tt) file                     (* "invalid range" *)
  else
    let checked :=
      if negb ((status resp =? 200) || (status resp =? 206))
      then raise_for_status (status resp)
      else Return tt in
    match checked with
    | Raise e => untouched (Raise e) file
    | Return _ =>
      let total_size :=
        match content_range resp with
        | Some total => total
        | None => total_size
        end in
      match raise_for_status (status resp) with
      | Raise e => untouched (Raise e) file
      | Return _ =>
        let mode := if 0 <? start_byte then ab else wb in
        let data := concat (chunks resp) in
        {| returned := Return tt;
           opened := Some mode;
           written := data;
           progress_total := Some total_size;
           file_after := Some (write_file mode file data) |}
      end
    end.

(** [get_remote_file_size(url)]: the total a [bytes=0-0] request declares,
    from [Content-Range] when present (and non-empty), else from
    [Content-Length], else 0. *)
Definition declared_total (resp : response) : Z :=
  match content_range resp with
  | Some total => total
  | None =>
    match content_length resp with
    | Some len => len
    | None => 0
    end
  end.

Definition get_remote_file_size (srv : server) : result Z :=
  let resp := srv (RangeSpan 0 0) in
  let checked :=
    if negb ((status resp =? 200) || (status resp =? 206))
    then raise_for_status (status resp)
    else Return tt in
  match checked with
  | Raise e => Raise e
  | Return _ => Return (declared_total resp)
  end.

End Transfer.

(** * ConcurrencyLimiter: [gather_with_concurrency] *)

(** [gather_with_concurrency(n, *coros)] wraps every coroutine in
    [sem_coro], which runs it inside [async with semaphore], and hands the
    wrapped coroutines to [asyncio.gather(..., return_exceptions=True)].
    The event loop interleaves them at their suspension points; the model
    is the transition system of that interleaving, one transition per
    resumption of one task. *)

Module Limiter.

Local Open Scope nat_scope.

Section Gather.

Context {T : Type}.

(** A coroutine passed in: the suspension points it still has to pass
    before it ends, and how it ends (a value, or an exception). *)
Record coro : Type := {
  pending : nat;
  ending : result T
}.

(** Where a [sem_coro] is: before [async with semaphore] (not yet holding
    a slot), inside it (holding one), or finished with its outcome kept by
    [gather]. *)
Inductive task : Type :=
  | Waiting (c : coro)
  | Inside (c : coro)
  | Done (r : result T).

(** The semaphore's counter and the tasks, in the order of [coros]. *)
Record state : Type := {
  sem_value : nat;
  tasks : list task
}.

(** [semaphore = asyncio.Semaphore(n)] and one task per coroutine. *)
Definition init (n : nat) (coros : list coro) : state :=
  {| sem_value := n; tasks := Waiting <$> coros |}.

(** The event loop resumes task [i]:
    - before the [async with], it acquires a slot if the counter is
      positive, and stays blocked otherwise;
    - inside, it runs the coroutine to its next suspension point, or, when
      the coroutine ends (by [return] or by an exception), leaves the
      [async with], which releases the slot, and is done. *)
Definition fire (i : nat) (s : state) : option state :=
  match tasks s !! i with
  | Some (Waiting c) =>
    match sem_value s with
    | O => None
    | S v => Some {| sem_value := v; tasks := <[i := Inside c]> (tasks s) |}
    end
  | Some (Inside c) =>
    match pending c with
    | S k =>
      Some {| sem_value := sem_value s;
              tasks := <[i := Inside {| pending := k; ending := ending c |}]> (tasks s) |}
    | O =>
      Some {| sem_value := S (sem_value s);
              tasks := <[i := Done (ending c)]> (tasks s) |}
    end
  | Some (Done _) => None
  | None => None
  end.

(** A run: the tasks resumed one after the other, as the list names them. *)
Fixpoint run (schedule : list nat) (s : state) : option state :=
  match schedule with
  | [] => Some s
  | i :: rest =>
    match fire i s with
    | Some s' => run rest s'
    | None => None
    end
  end.

Definition outcome_of (t : task) : option (result T) :=
  match t with
  | Done r => Some r
  | _ => None
  end.

(** What [asyncio.gather(..., return_exceptions=True)] returns: nothing
    while a task is unfinished; then the outcome of every task, an
    exception taking the place of a value, in the order of the tasks. *)
Definition gathered (s : state) : option (list (result T)) :=
  mapM outcome_of (tasks s).

Definition holds_slot (t : task) : nat :=
  match t with
  | Inside _ => 1
  | _ => 0
  end.

(** The number of tasks inside [async with semaphore]. *)
Definition holders (s : state) : nat :=
  sum_list_with holds_slot (tasks s).

(** The resumptions a task still needs: one to acquire, one per suspension
    point, one to finish. *)
Definition remaining (t : task) : nat :=
  match t with
  | Waiting c => 2 + pending c
  | Inside c => 1 + pending c
  | Done _ => 0
  end.

Definition budget (s : state) : nat :=
  sum_list_with remaining (tasks s).

(** How a task of a later state relates to the coroutine it was made from. *)
Definition stems_from (c0 : coro) (t : task) : Prop :=
  match t with
  | Waiting c => c = c0
  | Inside c => ending c = ending c0 ∧ pending c ≤ pending c0
  | Done r => r = ending c0
  end.

(** What every reachable state keeps: the counter and the holders add up
    to the capacity, and every task stems from the coroutine in its place. *)
Definition invariant (n : nat) (coros : list coro) (s : state) : Prop :=
  sem_value s + holders s = n ∧ Forall2 stems_from coros (tasks s).

End Gather.

Arguments coro : clear implicits.
Arguments task : clear implicits.
Arguments state : clear implicits.

End Limiter.

(** * Effects: files on disk and the calls made *)

(** The modelled functions read and write destination files and call their
    collaborators. A computation takes the files on disk and gives how it
    ended, the files afterwards and the trace of what it did; an exception
    ends the computation where it is raised and keeps what was done. *)

Module Effects.

Definition files : Type := gmap string (list Byte.byte).

Definition io (E A : Type) : Type := files → result A * files * list E.

Section Monad.

Context {E : Type}.

#[export] Instance io_ret : MRet (io E) :=
  λ A a fs, (Return a, fs, []).

#[export] Instance io_bind : MBind (io E) :=
  λ A B k m fs,
    match m fs with
    | (Return a, fs1, t1) =>
      match k a fs1 with
      | (r, fs2, t2) => (r, fs2, t1 ++ t2)
      end
    | (Raise e, fs1, t1) => (Raise e, fs1, t1)
    end.

(** [raise e] *)
Definition throw {A} (e : exn) : io E A :=
  λ fs, (Raise e, fs, []).

(** A pure step that may raise. *)
Definition lift_result {A} (r : result A) : io E A :=
  λ fs, (r, fs, []).

(** One entry in the trace. *)
Definition emit (ev : E) : io E unit :=
  λ fs, (Return tt, fs, [ev]).

(** What [asyncio.gather(..., return_exceptions=True)] keeps of one task:
    its value, or the exception it raised, which does not propagate. *)
Definition capture {A} (m : io E A) : io E (result A) :=
  λ fs,
    match m fs with
    | (r, fs1, t1) => (Return r, fs1, t1)
    end.

(** [for x in xs: body(x)] *)
Fixpoint for_each {A} (body : A → io E unit) (xs : list A) : io E unit :=
  match xs with
  | [] => mret tt
  | x :: rest => body x ;; for_each body rest
  end.

(** The list of results [gather_with_concurrency(n, *tasks)] returns, for
    [n] of at least 1 as every call site has it. The tasks are taken one
    after the other here; [Limiter] is the model of their interleaving, and
    shows that the list returned does not depend on it. *)
Fixpoint gather_with_concurrency {A} (n : nat) (tasks : list (io E A))
    : io E (list (result A)) :=
  match tasks with
  | [] => mret []
  | t :: rest =>
    r ← capture t;
    rs ← gather_with_concurrency n rest;
    mret (r :: rs)
  end.

(** How a run from [fs] ends, what it leaves on disk, and its trace. *)
Definition result_of {A} (m : io E A) (fs : files) : result A := (m fs).1.1.
Definition files_of {A} (m : io E A) (fs : files) : files := (m fs).1.2.
Definition trace_of {A} (m : io E A) (fs : files) : list E := (m fs).2.

(** Every entry of every trace of [m] satisfies [Q]. *)
Definition traces {A} (Q : E → Prop) (m : io E A) : Prop :=
  ∀ fs, Forall Q (m fs).2.

End Monad.

(** A computation over one kind of trace entry, inside one over another. *)
Definition relabel {E F A} (f : E → F) (m : io E A) : io F A :=
  λ fs,
    match m fs with
    | (r, fs1, t1) => (r, fs1, f <$> t1)
    end.

End Effects.

(** * Python string helpers *)

Module PyStr.

(** [s.rsplit(sep, 1)[1]]: what follows the last [sep]; with no [sep] in
    [s] the list has one element and the index raises. *)
Fixpoint after_last (sep : ascii) (s : string) : option string :=
  match s with
  | EmptyString => None
  | String c rest =>
    match after_last sep rest with
    | Some tail => Some tail
    | None => if Ascii.eqb c sep then Some rest else None
    end
  end.

Fixpoint drop_chars (n : nat) (s : string) : string :=
  match n, s with
  | S k, String _ rest => drop_chars k rest
  | _, _ => s
  end.

(** [s.split(sep, 1)[1]]: what follows the first [sep]; with no [sep] in
    [s] the index raises. *)
Fixpoint after_first (sep s : string) : option string :=
  if String.prefix sep s then Some (drop_chars (String.length sep) s)
  else
    match s with
    | EmptyString => None
    | String _ rest => after_first sep rest
    end.

Fixpoint interleave (new s : string) : string :=
  match s with
  | EmptyString => EmptyString
  | String c rest => String c (new +:+ interleave new rest)
  end.

(** The scan of [s.replace(old, new)] for a non-empty [old]: [skip] counts
    the characters of a match still to be passed over. *)
Fixpoint replace_from (skip : nat) (old new s : string) : string :=
  match s with
  | EmptyString => EmptyString
  | String c rest =>
    match skip with
    | S k => replace_from k old new rest
    | O =>
      if String.prefix old s
      then new +:+ replace_from (String.length old - 1) old new rest
      else String c (replace_from 0 old new rest)
    end
  end.

(** [s.replace(old, new)]: every occurrence, left to right; an empty [old]
    matches before every character and at the end. *)
Definition replace (old new s : string) : string :=
  match old with
  | EmptyString => new +:+ interleave new s
  | _ => replace_from 0 old new s
  end.

Fixpoint map_chars (f : ascii → ascii) (s : string) : string :=
  match s with
  | EmptyString => EmptyString
  | String c rest => String (f c) (map_chars f rest)
  end.

Fixpoint remove_chars (bad : ascii → bool) (s : string) : string :=
  match s with
  | EmptyString => EmptyString
  | String c rest =>
    if bad c then remove_chars bad rest else String c (remove_chars bad rest)
  end.

(** The characters the pattern of [re.sub] removes: less-than,
    greater-than, colon, double quote, slash, backslash, bar, question mark
    and star, by code. *)
Definition unsafe_char (c : ascii) : bool :=
  existsb (N.eqb (N_of_ascii c)) [60; 62; 58; 34; 47; 92; 124; 63; 42]%N.

(** [make_safe_filename(title)] *)
Definition make_safe_filename (title : string) : string :=
  let underscored := map_chars (λ c, if Ascii.eqb c " " then "_"%char else c) title in
  remove_chars unsafe_char underscored.

Fixpoint ends_with_slash (s : string) : bool :=
  match s with
  | EmptyString => false
  | String c EmptyString => Ascii.eqb c "/"
  | String _ rest => ends_with_slash rest
  end.

(** [os.path.join(a, b)] of [posixpath]. *)
Definition os_path_join (a b : string) : string :=
  if String.prefix "/" b then b
  else if bool_decide (a = EmptyString) || ends_with_slash a then a +:+ b
  else a +:+ "/" +:+ b.

End PyStr.

(** * Item download: [download_video_subtitles_and_maybe_audio] *)

Module Media.

Import Effects.

(** The dictionary [process_entry] returns for one item. *)
Record media_metadata : Type := {
  id : string;
  datetime : string;
  url : string;
  title : string;
  series_title : string;
  video_sources : gmap string string;
  subtitle_sources : gmap string string;
  audio_sources : gmap string string
}.

(** The calls an item download makes. *)
Inductive call : Type :=
  | GetSize (url : string)
  | Makedirs (path : string)
  | Download (url abspath : string).

(** The languages the item has a subtitle for. *)
Definition available (md : media_metadata) (subtitles : list string) : list string :=
  filter (λ subtitle, is_Some (subtitle_sources md !! subtitle)) subtitles.

(** The languages the item has no subtitle for. *)
Definition unavailable (md : media_metadata) (subtitles : list string) : list string :=
  filter (λ subtitle, subtitle_sources md !! subtitle = None) subtitles.

Section Item.

(** The server behind every url. *)
Variable http : string → Transfer.server.

(** [str(datetime.strptime(s, "%Y-%m-%d__%H_%M").year)] *)
Variable strptime_year : string → result string.

Definition get_remote_file_size (url : string) : io call Z :=
  λ fs, (Transfer.get_remote_file_size (http url), fs, [GetSize url]).

Definition download_file (url abspath : string) : io call unit :=
  λ fs,
    let o := Transfer.download_file (http url) (fs !! abspath) in
    (Transfer.returned o,
     partial_alter (λ _, Transfer.file_after o) abspath fs,
     [Download url abspath]).

(** Lines 991-999: the video source of the configured quality; with no
    video sources at all, the audio source of the configured quality; the
    [KeyError] of a missing audio source is logged and [media_url] stays
    what it was. *)
Definition select_media_url (md : media_metadata)
    (video_quality audio_quality : string) : option string :=
  let media_url := video_sources md !! video_quality in
  if bool_decide (video_sources md = ∅) then
    match audio_sources md !! audio_quality with
    | Some audio_url => Some audio_url
    | None => media_url
    end
  else media_url.

Definition of_option {A} (e : exn) (o : option A) : io call A :=
  match o with
  | Some a => mret a
  | None => throw e
  end.

(** The loop over the configured subtitle languages (lines 1052-1080). *)
Fixpoint subtitle_loop (md : media_metadata) (get_size : bool)
    (media_url media_extension media_filename download_path_with_parent : string)
    (subtitles : list string) (filesize : Z) : io call Z :=
  match subtitles with
  | [] => mret filesize
  | subtitle :: rest =>
    match subtitle_sources md !! subtitle with
    | None =>                                              (* KeyError: continue *)
      subtitle_loop md get_size media_url media_extension media_filename
        download_path_with_parent rest filesize
    | Some subtitle_url =>
      subtitle_extension ← of_option IndexError (PyStr.after_last "." subtitle_url);
      let subtitle_filename :=
        PyStr.replace media_extension subtitle_extension media_filename in
      let subtitle_abspath :=
        PyStr.os_path_join download_path_with_parent subtitle_filename in
      if get_size then
        size ← get_remote_file_size media_url;
        subtitle_loop md get_size media_url media_extension media_filename
          download_path_with_parent rest (filesize + size)
      else
        download_file subtitle_url subtitle_abspath;;
        subtitle_loop md get_size media_url media_extension media_filename
          download_path_with_parent rest filesize
    end
  end.

(** [if subtitles:] and the loop: nothing for [None] and for an empty
    list. *)
Definition subtitle_part (md : media_metadata) (get_size : bool)
    (media_url media_extension media_filename download_path_with_parent : string)
    (subtitles : option (list string)) (filesize : Z) : io call Z :=
  match subtitles with
  | Some (subtitle :: rest) =>
    subtitle_loop md get_size media_url media_extension media_filename
      download_path_with_parent (subtitle :: rest) filesize
  | _ => mret filesize
  end.

(** [download_video_subtitles_and_maybe_audio]. The first argument is what
    [gather] kept for the item: the dictionary of [process_entry], or the
    exception it raised, on which [.get] is an [AttributeError]. The
    result is the summed size when [get_size] is set and [None] otherwise. *)
Definition download_video_subtitles_and_maybe_audio
    (media_metadata : result media_metadata)
    (download_path video_quality : string) (subtitles : option (list string))
    (audio_quality : string) (get_size : bool) : io call (option Z) :=
  md ← match media_metadata with
       | Return md => mret md
       | Raise _ => throw AttributeError
       end;
  media_url ← of_option AttributeError
                (select_media_url md video_quality audio_quality);
  media_extension ← of_option IndexError (PyStr.after_last "." media_url);
  let media_filename :=
    PyStr.make_safe_filename
      (datetime md +:+ "__" +:+ title md +:+ "__" +:+ id md +:+ "." +:+ media_extension) in
  year ← lift_result (strptime_year (datetime md));
  let media_parent_dir := year +:+ "_" +:+ PyStr.make_safe_filename (series_title md) in
  let download_path_with_parent := PyStr.os_path_join download_path media_parent_dir in
  let media_abspath := PyStr.os_path_join download_path_with_parent media_filename in
  filesize ← (if get_size then get_remote_file_size media_url
              else
                emit (Makedirs download_path_with_parent);;
                download_file media_url media_abspath;;
                mret 0);
  filesize ← subtitle_part md get_size media_url media_extension media_filename
               download_path_with_parent subtitles filesize;
  mret (if get_size then Some filesize else None).

End Item.

End Media.

(** * AccessTierClassifier: [get_series_type] *)

Module Classifier.

(** An entry of the series metadata: [entry["__typename"]], [entry["id"]]. *)
Record entry : Type := {
  typename : string;
  id : string
}.

(** What the video page shows once [wait_for_either_button] has returned:
    the answers of [download_button.is_visible()] and
    [verify_button.is_visible()]. The two [wait_for] tasks end when their
    button is visible or when their timeout expires; [asyncio.wait]
    returns at the first of the two and does not re-raise a timeout, so a
    probe in which neither button appears carries on with both answers
    [false]. *)
Record page : Type := {
  download_visible : bool;
  verify_visible : bool
}.

(** The page of a probe in which both waits ran into their timeout. *)
Definition timed_out : page :=
  {| download_visible := false; verify_visible := false |}.

(** [get_series_type(context, entry, series)]; [goto] is the browser
    opening a video page, which may fail. *)
Definition get_series_type (goto : string → result page) (e : entry)
    (series_url : string) : result string :=
  if bool_decide (typename e = "NotAllowed") then Return "eth"
  else
    match PyStr.after_first "ev" (id e) with
    | None => Raise IndexError
    | Some entry_id =>
      let video_page_url := series_url +:+ "/v/" +:+ entry_id in
      match goto video_page_url with
      | Raise err => Raise err
      | Return pg =>
        if download_visible pg then Return "open"
        else if verify_visible pg then Return "protected"
        else Return "none"
      end
    end.

End Classifier.

(** * AcquisitionOrchestrator: the buckets and phases of [main] *)

Module Orchestrator.

Import Effects.

(** A series dictionary: its url and title, the entries
    [extract_video_entries] finds in its metadata ([None] when the parsing
    failed), and the [login_type] the classification loop adds. *)
Record series : Type := {
  url : string;
  title : string;
  entries : option (list Classifier.entry);
  login_type : string
}.

Definition set_login_type (ty : string) (x : series) : series :=
  {| url := url x; title := title x; entries := entries x; login_type := ty |}.

(** The three loops of [main] that download: over [open_series], over
    [protected_series_logged_in] (in [download_protected_videos]) and over
    [eth_series]. *)
Inductive phase : Type := OpenPhase | ProtectedPhase | EthPhase.

(** The three gathers of each loop body. *)
Inductive stage : Type := MetadataFetch | SizeProbe | TransferFiles.

(** The trace of a run: the gathers started, for which element of which
    bucket; the logins; the pages processed; the calls of the item
    downloads. *)
Inductive event : Type :=
  | Stage (p : phase) (st : stage) (x : series)
  | LoginEth
  | LoginProtected (x : series)
  | Refetch (x : series)
  | ProcessEntry (x : series) (e : Classifier.entry)
  | Item (c : Media.call).

(** Lines 1539-1548: the buckets, filled in the order of the series. *)
Fixpoint bucket (series_videos_data : list series)
    (open_series protected_series eth_series : list series)
    : list series * list series * list series :=
  match series_videos_data with
  | [] => (open_series, protected_series, eth_series)
  | x :: rest =>
    let open_series :=
      if bool_decide (login_type x = "open") then open_series ++ [x]
      else open_series in
    if bool_decide (login_type x = "protected")
    then bucket rest open_series (protected_series ++ [x]) eth_series
    else bucket rest open_series protected_series (eth_series ++ [x])
  end.

Definition open_bucket (l : list series) : list series := (bucket l [] [] []).1.1.
Definition protected_bucket (l : list series) : list series := (bucket l [] [] []).1.2.
Definition eth_bucket (l : list series) : list series := (bucket l [] [] []).2.

(** [sum(filesizes)]: the additions start from 0; adding an exception
    object, or [None], to an integer raises [TypeError]. *)
Fixpoint py_sum (acc : Z) (filesizes : list (result (option Z))) : result Z :=
  match filesizes with
  | [] => Return acc
  | Return (Some size) :: rest => py_sum (acc + size) rest
  | _ :: _ => Raise TypeError
  end.

(** Truth of what a gathered login left: an exception object and a series
    dictionary are true, [None] is false. *)
Definition logged_in (r : result (option series)) : bool :=
  match r with
  | Return None => false
  | _ => true
  end.

Section Main.

(** The collaborators: the server behind every url; the year [strptime]
    reads; the browser opening a video page for the classifier;
    [process_entry] scraping one; [login_eth]; [login_protected] on the
    first video page of a series (true when it returned the series,
    false when it returned [None]); [graphql_append_json_metadata]
    re-reading a series. *)
Variable http : string → Transfer.server.
Variable strptime_year : string → result string.
Variable goto : string → result Classifier.page.
Variable process_entry : series → Classifier.entry → bool → result Media.media_metadata.
Variable login_eth : result bool.
Variable login_protected : series → result bool.
Variable graphql_append_json_metadata : series → result series.

(** The command line: [--save-dir], [--video-quality], [--subtitles],
    [--audio-quality]. *)
Variable save_dir video_quality : string.
Variable subtitles : option (list string).
Variable audio_quality : string.

Definition item (md : result Media.media_metadata) (get_size : bool)
    : io event (option Z) :=
  relabel Item
    (Media.download_video_subtitles_and_maybe_audio http strptime_year
       md save_dir video_quality subtitles audio_quality get_size).

(** The body the three loops share (lines 1555-1598, 1090-1135,
    1660-1709): the pages of all entries, then the sizes, their sum for
    the announcement, then the downloads. [x] is the element of the bucket
    the loop is at, [data] the dictionary read (the same, but for the eth
    loop, which re-reads it first). *)
Definition fetch_and_download (p : phase) (x data : series)
    (protected_without_eth_login : bool) : io event unit :=
  entries ← lift_result (match entries data with
                         | Some es => Return es
                         | None => Raise TypeError           (* len(None) *)
                         end);
  emit (Stage p MetadataFetch x);;
  videos_data ← gather_with_concurrency 10
    ((λ e, emit (ProcessEntry data e);;
           lift_result (process_entry data e protected_without_eth_login))
       <$> entries);
  emit (Stage p SizeProbe x);;
  filesizes ← gather_with_concurrency 10
    ((λ video_metadata, item video_metadata true) <$> videos_data);
  _ ← lift_result (py_sum 0 filesizes);
  emit (Stage p TransferFiles x);;
  _ ← gather_with_concurrency 5
    ((λ video_metadata, item video_metadata false) <$> videos_data);
  mret tt.

(** Lines 1517-1533: the type of every series, from its first entry;
    [exit()] when a series has none. *)
Fixpoint classify_all (series_videos_data : list series) : io event (list series) :=
  match series_videos_data with
  | [] => mret []
  | x :: rest =>
    match entries x with
    | Some (first_entry :: _) =>
      ty ← lift_result (Classifier.get_series_type goto first_entry (url x));
      rest' ← classify_all rest;
      mret (set_login_type ty x :: rest')
    | _ => throw SystemExit
    end
  end.

(** [login_protected_first_video(context, ps)] *)
Definition login_protected_first_video (ps : series) : io event (option series) :=
  emit (LoginProtected ps);;
  ok ← lift_result (login_protected ps);
  mret (if ok : bool then Some ps else None).

(** [download_protected_videos]; an exception object that the filter let
    through cannot be subscripted. *)
Definition download_protected_videos
    (protected_series_logged_in : list (result (option series)))
    (protected_without_eth_login : bool) : io event unit :=
  for_each
    (λ r, match r with
          | Return (Some x) =>
            fetch_and_download ProtectedPhase x x protected_without_eth_login
          | _ => throw TypeError
          end)
    protected_series_logged_in.

(** [eth_success]: [None], or what [login_eth] returned when there are
    eth series. *)
Definition eth_login (eth_series : list series) : io event (option bool) :=
  match eth_series with
  | [] => mret None
  | _ :: _ => emit LoginEth;; ok ← lift_result login_eth; mret (Some ok)
  end.

(** Lines 1554-1711: the phases, over the three buckets. *)
Definition phases_of (open_series protected_series eth_series : list series)
    : io event unit :=
  for_each (λ x, fetch_and_download OpenPhase x x false) open_series;;
  eth_success ← eth_login eth_series;
  gathered ← gather_with_concurrency 10
               (login_protected_first_video <$> protected_series);
  let protected_series_logged_in := filter (λ r, logged_in r = true) gathered in
  (if default false eth_success then mret tt
   else download_protected_videos protected_series_logged_in true);;
  if default false eth_success then
    download_protected_videos protected_series_logged_in false;;
    for_each
      (λ x, emit (Refetch x);;
            data ← lift_result (graphql_append_json_metadata x);
            fetch_and_download EthPhase x data false)
      eth_series
  else mret tt.

(** Lines 1539-1711: [main] from the buckets on. *)
Definition download_phases (series_videos_data : list series) : io event unit :=
  let '(open_series, protected_series, eth_series) :=
    bucket series_videos_data [] [] [] in
  phases_of open_series protected_series eth_series.

(** Where the gathers of a trace may come from: those of a phase from the
    elements of its bucket, and those of the eth phase only after a
    [login_eth] that returned [True]. *)
Definition placed (open_series protected_series eth_series : list series)
    (ev : event) : Prop :=
  match ev with
  | Stage OpenPhase _ x => x ∈ open_series
  | Stage ProtectedPhase _ x => x ∈ protected_series
  | Stage EthPhase _ x => x ∈ eth_series ∧ login_eth = Return true
  | _ => True
  end.

(** The gathers of a trace are all of phase [p] and for [x]. *)
Definition stages_of (p : phase) (x : series) (ev : event) : Prop :=
  match ev with
  | Stage p' _ y => p' = p ∧ y = x
  | _ => True
  end.

(** [main] from the classification loop on. *)
Definition main (series_videos_data : list series) : io event unit :=
  classified ← classify_all series_videos_data;
  download_phases classified.

End Main.

End Orchestrator.

(** * The timestamp in file names: [strftime("%Y-%m-%d__%H_%M")] *)

Module Timestamp.

(** A Python [datetime] as [datetime.fromisoformat] builds it from
    [entry["created"]]: the fields, and the offset from UTC in
    microseconds ([None] for a naive value, [Some 0] for the ["Z"] the
    code rewrites to ["+00:00"]). *)
Record datetime : Type := {
  year : Z;
  month : Z;
  day : Z;
  hour : Z;
  minute : Z;
  second : Z;
  microsecond : Z;
  utcoffset : option Z
}.

Definition is_leap (y : Z) : bool :=
  (y mod 4 =? 0) && (negb (y mod 100 =? 0) || (y mod 400 =? 0)).

Definition days_in_month (y m : Z) : Z :=
  if m =? 2 then (if is_leap y then 29 else 28)
  else if (m =? 4) || (m =? 6) || (m =? 9) || (m =? 11) then 30
  else 31.

(** The values the type admits ([MINYEAR] to [MAXYEAR], a day of the
    month, a time of the day). *)
Definition valid (d : datetime) : bool :=
  (1 <=? year d) && (year d <=? 9999) &&
  (1 <=? month d) && (month d <=? 12) &&
  (1 <=? day d) && (day d <=? days_in_month (year d) (month d)) &&
  (0 <=? hour d) && (hour d <? 24) &&
  (0 <=? minute d) && (minute d <? 60) &&
  (0 <=? second d) && (second d <? 60) &&
  (0 <=? microsecond d) && (microsecond d <? 1000000).

Definition days_before_year (y : Z) : Z :=
  let y := y - 1 in y * 365 + y / 4 - y / 100 + y / 400.

Definition days_before_month (y m : Z) : Z :=
  nth (Z.to_nat m) [0; 0; 31; 59; 90; 120; 151; 181; 212; 243; 273; 304; 334] 0
  + (if (2 <? m) && is_leap y then 1 else 0).

Definition ymd2ord (y m d : Z) : Z :=
  days_before_year y + days_before_month y m + d.

(** Microseconds of the local fields since the start of the calendar. *)
Definition local_microseconds (d : datetime) : Z :=
  (((ymd2ord (year d) (month d) (day d) * 24 + hour d) * 60 + minute d) * 60
   + second d) * 1000000 + microsecond d.

Fixpoint lex_compare (xs ys : list Z) : comparison :=
  match xs, ys with
  | x :: xs', y :: ys' =>
    match x ?= y with
    | Eq => lex_compare xs' ys'
    | c => c
    end
  | [], [] => Eq
  | [], _ :: _ => Lt
  | _ :: _, [] => Gt
  end.

Definition fields (d : datetime) : list Z :=
  [year d; month d; day d; hour d; minute d; second d; microsecond d].

(** The order of two datetimes, as [datetime]'s comparison finds it: with
    equal offsets the fields are compared; with different offsets the
    instants are; a naive and an aware value do not compare
    ([TypeError]). *)
Definition chronological (a b : datetime) : option comparison :=
  if bool_decide (utcoffset a = utcoffset b) then
    Some (lex_compare (fields a) (fields b))
  else
    match utcoffset a, utcoffset b with
    | Some offa, Some offb =>
      Some ((local_microseconds a - offa) ?= (local_microseconds b - offb))
    | _, _ => None
    end.

Definition digit (n : Z) : ascii :=
  ascii_of_N (48 + Z.to_N (n mod 10)).

(** Two and four decimal digits, zero-filled. *)
Definition pad2 (n : Z) : string :=
  String (digit (n / 10)) (String (digit n) EmptyString).

Definition pad4 (n : Z) : string :=
  pad2 (n / 100) +:+ pad2 (n mod 100).

(** [dt_timestamp.strftime("%Y-%m-%d__%H_%M")] (line 645); the seconds
    are left out of the format. The four digits of [%Y] are those of every
    platform for the years from 1000 on. *)
Definition strftime (d : datetime) : string :=
  pad4 (year d) +:+ "-" +:+ pad2 (month d) +:+ "-" +:+ pad2 (day d)
  +:+ "__" +:+ pad2 (hour d) +:+ "_" +:+ pad2 (minute d).

(** The fields the format prints. *)
Definition printed_fields (d : datetime) : list Z :=
  [year d; month d; day d; hour d; minute d].

(** The datetime at the start of its minute. *)
Definition floor_minute (d : datetime) : datetime :=
  {| year := year d; month := month d; day := day d;
     hour := hour d; minute := minute d;
     second := 0; microsecond := 0; utcoffset := utcoffset d |}.

End Timestamp.

(** * More of Python's [str] *)

(** The methods [get_urls], [process_entry] and [main] use. As in [PyStr],
    a string is the sequence of its characters, each a code point below
    256. *)

Module PyText.

(** [c.isspace()], for the code points below 256: the controls 9 to 13 and
    28 to 31, the space, the next-line control 133 and the no-break space
    160. *)
Definition is_space (c : ascii) : bool :=
  existsb (N.eqb (N_of_ascii c)) [9; 10; 11; 12; 13; 28; 29; 30; 31; 32; 133; 160]%N.

(** Membership in the argument of [strip(chars)] and [lstrip(chars)]. *)
Definition one_of (chars : string) (c : ascii) : bool :=
  existsb (Ascii.eqb c) (list_ascii_of_string chars).

(** [s.lstrip()], [s.rstrip()] and [s.strip()], for the characters [bad]. *)
Fixpoint lstrip (bad : ascii → bool) (s : string) : string :=
  match s with
  | EmptyString => EmptyString
  | String c rest => if bad c then lstrip bad rest else s
  end.

Fixpoint rstrip (bad : ascii → bool) (s : string) : string :=
  match s with
  | EmptyString => EmptyString
  | String c rest =>
    match rstrip bad rest with
    | EmptyString => if bad c then EmptyString else String c EmptyString
    | kept => String c kept
    end
  end.

Definition strip (bad : ascii → bool) (s : string) : string :=
  rstrip bad (lstrip bad s).

(** The scan of [s.split()]: the word being read, and the words after it. *)
Definition push_word (word : string) (words : list string) : list string :=
  match word with
  | EmptyString => words
  | _ => word :: words
  end.

Fixpoint scan_words (s : string) : string * list string :=
  match s with
  | EmptyString => (EmptyString, [])
  | String c rest =>
    let '(word, later) := scan_words rest in
    if is_space c then (EmptyString, push_word word later)
    else (String c word, later)
  end.

(** [s.split()]: the maximal runs of characters that are not whitespace. *)
Definition split_ws (s : string) : list string :=
  let '(word, later) := scan_words s in push_word word later.

(** The scan of [s.split(sep)] for a non-empty [sep]: the head of the list
    is the piece being read; [skip] counts the characters of a separator
    still to be passed over. *)
Fixpoint split_from (skip : nat) (sep s : string) : list string :=
  match s with
  | EmptyString => [EmptyString]
  | String c rest =>
    match skip with
    | S k => split_from k sep rest
    | O =>
      if String.prefix sep s
      then EmptyString :: split_from (String.length sep - 1) sep rest
      else
        match split_from 0 sep rest with
        | piece :: pieces => String c piece :: pieces
        | [] => [String c EmptyString]
        end
    end
  end.

Definition split (sep s : string) : list string := split_from 0 sep s.

(** [sub in s] *)
Fixpoint contains (sub s : string) : bool :=
  if String.prefix sub s then true
  else
    match s with
    | EmptyString => false
    | String _ rest => contains sub rest
    end.

(** [s.endswith(suffix)] *)
Fixpoint endswith (suffix s : string) : bool :=
  if String.eqb suffix s then true
  else
    match s with
    | EmptyString => false
    | String _ rest => endswith suffix rest
    end.

(** The line feed. *)
Definition newline : string := String (ascii_of_N 10) EmptyString.

(** [f.readline()] on a text [s]: the line, with its line feed if it has
    one, and what is left to read. *)
Fixpoint readline (s : string) : string * string :=
  match s with
  | EmptyString => (EmptyString, EmptyString)
  | String c rest =>
    if Ascii.eqb c (ascii_of_N 10) then (String c EmptyString, rest)
    else let '(line, later) := readline rest in (String c line, later)
  end.

(** [f.read(n)]: the next [n] characters, or as many as there are. *)
Fixpoint take_chars (n : nat) (s : string) : string :=
  match n, s with
  | S k, String c rest => String c (take_chars k rest)
  | _, _ => EmptyString
  end.

(** [old] occurs in [stem +:+ old] at its end only: at no earlier position
    does a match of [old] start. *)
Fixpoint only_at_end (old stem : string) : Prop :=
  match stem with
  | EmptyString => True
  | String c rest =>
    String.prefix old (stem +:+ old) = false ∧ only_at_end old rest
  end.

End PyText.

(** * The urls file: [get_urls] *)

Module Urls.

Import PyText.

(** An element of the list [get_urls] returns. *)
Record entry : Type := {
  url : string;
  username : option string;
  password : option string
}.

(** The two exceptions [get_urls] raises; [ValueError] carries the line
    its message quotes. *)
Inductive error : Type :=
  | FileNotFoundError
  | InvalidLine (line : string).

(** The loop over the lines of the file (lines 1192-1218). *)
Fixpoint parse_lines (lines : list string) : error + list entry :=
  match lines with
  | [] => inr []
  | line :: rest =>
    let line := strip is_space line in
    if bool_decide (line = EmptyString) || String.prefix "#" line
    then parse_lines rest
    else
      match split_ws line with
      | [url] =>
        match parse_lines rest with
        | inr urls =>
          inr ({| url := url; username := None; password := None |} :: urls)
        | inl e => inl e
        end
      | [url; username; password] =>
        match parse_lines rest with
        | inr urls =>
          inr ({| url := url; username := Some username;
                  password := Some password |} :: urls)
        | inl e => inl e
        end
      | _ => inl (InvalidLine line)
      end
  end.

(** [get_urls(args, urls_path)]. [isfile] and [readlines] are the file
    system: whether a path is a file, and the lines [for line in f] gives
    for it. [args_urls] is [args.urls] when [args] has that attribute. The
    error logged for an empty list changes nothing in what is returned. *)
Definition get_urls (isfile : string → bool) (readlines : string → list string)
    (args_urls : option string) (urls_path : string) : error + list entry :=
  let filepath :=
    if match args_urls with Some path => isfile path | None => false end
    then args_urls
    else if isfile "urls" then Some "urls"
    else if isfile urls_path then Some urls_path
    else None in
  match filepath with
  | Some path => parse_lines (readlines path)
  | None => inl FileNotFoundError
  end.

(** A word of [split()]: not empty, and without whitespace. *)
Definition token (w : string) : Prop :=
  w ≠ EmptyString ∧ Forall (λ c, is_space c = false) (list_ascii_of_string w).

(** How an entry is made: a url that is a word and does not start a
    comment, and either no credentials or both, each a word. *)
Definition well_formed (e : entry) : Prop :=
  token (url e) ∧
  String.prefix "#" (url e) = false ∧
  ((username e = None ∧ password e = None) ∨
   (∃ u p, username e = Some u ∧ password e = Some p ∧ token u ∧ token p)).

(** A line the loop passes over: blank, or a comment. *)
Definition skipped (line : string) : Prop :=
  strip is_space line = EmptyString ∨
  String.prefix "#" (strip is_space line) = true.

End Urls.

(** * The series metadata: [extract_video_entries] *)

Module Json.

Section Values.

(** The numbers of a JSON document, and which of them are zero. *)
Context {number : Type}.
Variable nonzero : number → bool.

(** What [response.json()] gives: [None], booleans, numbers, strings,
    lists, and dictionaries, whose keys are distinct and kept in the order
    of the document. *)
#[warnings="-register-all"]
Inductive json : Type :=
  | JNull
  | JBool (b : bool)
  | JNumber (n : number)
  | JString (s : string)
  | JList (items : list json)
  | JDict (pairs : list (string * json)).

(** [bool(v)] *)
Definition truthy (v : json) : bool :=
  match v with
  | JNull => false
  | JBool b => b
  | JNumber n => nonzero n
  | JString s => negb (bool_decide (s = EmptyString))
  | JList items => negb (bool_decide (length items = 0%nat))
  | JDict pairs => negb (bool_decide (length pairs = 0%nat))
  end.

Fixpoint lookup_key (key : string) (pairs : list (string * json)) : option json :=
  match pairs with
  | [] => None
  | (k, v) :: rest => if bool_decide (k = key) then Some v else lookup_key key rest
  end.

(** [v[key]] for a string [key]: [None] stands for the [KeyError] of a
    dictionary without the key and the [TypeError] of every other value. *)
Definition getitem (v : json) (key : string) : option json :=
  match v with
  | JDict pairs => lookup_key key pairs
  | _ => None
  end.

(** [v.get(key, otherwise)]: [None] stands for the [AttributeError] of a
    value that is not a dictionary. *)
Definition get_default (v : json) (key : string) (otherwise : json) : option json :=
  match v with
  | JDict pairs =>
    Some (match lookup_key key pairs with Some found => found | None => otherwise end)
  | _ => None
  end.

(** [v == s] for a string [s]. *)
Definition is_str (v : json) (s : string) : bool :=
  match v with
  | JString s' => bool_decide (s' = s)
  | _ => false
  end.

(** The elements a [for] loop or [extend] takes from [v]: those of a list,
    the keys of a dictionary, the characters of a string; [None] stands
    for the [TypeError] of a value that is not iterable. *)
Definition iterate (v : json) : option (list json) :=
  match v with
  | JList items => Some items
  | JDict pairs => Some ((λ kv, JString kv.1) <$> pairs)
  | JString s => Some ((λ c, JString (String c EmptyString)) <$> list_ascii_of_string s)
  | _ => None
  end.

(** [block["__typename"] == name and block.get(key)], as a truth value. *)
Definition block_is (block : json) (name key : string) : option bool :=
  ty ← getitem block "__typename";
  if is_str ty name
  then truthy <$> get_default block key JNull
  else Some false.

(** What one turn of the loop adds to [entries] (lines 365-372). *)
Definition block_entries (block : json) : option (list json) :=
  is_series ← block_is block "SeriesBlock" "series";
  if is_series : bool then
    series ← getitem block "series";
    found ← get_default series "entries" (JList []);
    iterate found
  else
    is_playlist ← block_is block "PlaylistBlock" "playlist";
    if is_playlist : bool then
      playlist ← getitem block "playlist";
      found ← get_default playlist "entries" (JList []);
      iterate found
    else
      is_video ← block_is block "VideoBlock" "event";
      if is_video : bool then
        event ← getitem block "event";
        Some [event]
      else Some [].

(** The loop over the blocks, from the entries found so far. *)
Fixpoint extend_all (entries : list json) (blocks : list json) : option (list json) :=
  match blocks with
  | [] => Some entries
  | block :: rest =>
    found ← block_entries block;
    extend_all (entries ++ found) rest
  end.

(** [extract_video_entries(data)]: the list of entries, or [None] when
    anything in the [try] raised. *)
Definition extract_video_entries (data : json) : option (list json) :=
  realm ← getitem data "realm";
  blocks ← getitem realm "blocks";
  blocks ← iterate blocks;
  extend_all [] blocks.

(** A block as the portal sends it, with the entries it holds: a series
    or a playlist with its list of entries, or a video with its event. *)
Definition holds (block : json) (entries : list json) : Prop :=
  (∃ series,
     getitem block "__typename" = Some (JString "SeriesBlock") ∧
     getitem block "series" = Some series ∧
     getitem series "entries" = Some (JList entries)) ∨
  (∃ playlist,
     getitem block "__typename" = Some (JString "PlaylistBlock") ∧
     getitem block "playlist" = Some playlist ∧
     getitem playlist "entries" = Some (JList entries)) ∨
  (∃ event,
     getitem block "__typename" = Some (JString "VideoBlock") ∧
     getitem block "event" = Some event ∧
     truthy event = true ∧
     entries = [event]).

(** The document whose realm has the blocks [blocks]. *)
Definition realm_of (blocks : list json) : json :=
  JDict [("realm", JDict [("blocks", JList blocks)])].

End Values.

Arguments json : clear implicits.

End Json.

(** * The download dialog of a video page: the link loop of [process_entry] *)

Module Dialog.

Import PyText.

(** A link of the dialog: what [get_attribute("href")] gives ([None] for a
    link without the attribute) and its [text_content()], which for an
    element is a string. *)
Record link : Type := {
  href : option string;
  text_content : string
}.

(** The three dictionaries the loop fills. *)
Record sources : Type := {
  video_sources : gmap string string;
  subtitle_sources : gmap string string;
  audio_sources : gmap string string
}.

Definition no_sources : sources :=
  {| video_sources := ∅; subtitle_sources := ∅; audio_sources := ∅ |}.

(** Lines 613-620. *)
Definition video_quality (label : string) : string :=
  if contains "640" label then "low"
  else if contains "1280" label then "mid"
  else if contains "1920" label then "high"
  else "unknown".

(** Lines 626-633. *)
Definition audio_quality (href : string) : string :=
  if endswith ".m4a" href then "m4a"
  else if endswith ".mpeg" href then "mpeg"
  else if endswith ".ogg" href then "ogg"
  else "unknown".

(** [label.lstrip("Caption ").strip("()")] *)
Definition subtitle_language (label : string) : string :=
  strip (one_of "()") (lstrip (one_of "Caption ") label).

(** One turn of the loop (lines 608-634). Every test on [href] follows a
    test on the label that holds, so a link without [href] raises the
    [AttributeError] of [None.endswith] exactly when its label names one
    of the three kinds. *)
Definition scrape_link (l : link) (found : sources) : result sources :=
  let label := strip is_space (text_content l) in
  match href l with
  | None =>
    if contains "Video" label || contains "Caption" label || contains "Audio" label
    then Raise AttributeError
    else Return found
  | Some href =>
    if contains "Video" label && endswith ".mp4" href then
      Return {| video_sources := <[video_quality label := href]> (video_sources found);
                subtitle_sources := subtitle_sources found;
                audio_sources := audio_sources found |}
    else if contains "Caption" label && endswith ".vtt" href then
      Return {| video_sources := video_sources found;
                subtitle_sources :=
                  <[subtitle_language label := href]> (subtitle_sources found);
                audio_sources := audio_sources found |}
    else if contains "Audio" label then
      Return {| video_sources := video_sources found;
                subtitle_sources := subtitle_sources found;
                audio_sources := <[audio_quality href := href]> (audio_sources found) |}
    else Return found
  end.

(** The loop over the links. *)
Fixpoint scrape_links (links : list link) (found : sources) : result sources :=
  match links with
  | [] => Return found
  | l :: rest =>
    match scrape_link l found with
    | Return found => scrape_links rest found
    | Raise e => Raise e
    end
  end.

(** What the loop keeps of the links [links]: every source is the [href]
    of one of them; a video source ends in [.mp4] and is filed under one of
    the four qualities; a subtitle source ends in [.vtt]; an audio source
    is filed under the quality its ending gives. *)
Definition filed (links : list link) (found : sources) : Prop :=
  (∀ quality url, video_sources found !! quality = Some url →
     quality ∈ ["low"; "mid"; "high"; "unknown"] ∧
     endswith ".mp4" url = true ∧
     ∃ l, l ∈ links ∧ href l = Some url) ∧
  (∀ language url, subtitle_sources found !! language = Some url →
     endswith ".vtt" url = true ∧
     ∃ l, l ∈ links ∧ href l = Some url) ∧
  (∀ quality url, audio_sources found !! quality = Some url →
     quality = audio_quality url ∧
     ∃ l, l ∈ links ∧ href l = Some url).

End Dialog.

(** * The star notice of [main] *)

Module Notice.

Import PyText.

Section Counter.

(** [sys.get_int_max_str_digits()]: the longest string [int] converts, 0
    for no limit. *)
Variable max_str_digits : nat.

Definition marker : string := "### starme = ".

(** [c.isdigit()], for the code points below 256: the ten digits, and the
    superscripts two, three and one. *)
Definition is_digit (c : ascii) : bool :=
  ((48 <=? N_of_ascii c) && (N_of_ascii c <=? 57))%N
  || existsb (N.eqb (N_of_ascii c)) [178; 179; 185]%N.

(** [s.isdigit()] *)
Definition isdigit (s : string) : bool :=
  negb (bool_decide (s = EmptyString)) && forallb is_digit (list_ascii_of_string s).

(** [int(s)] for a string that passed [isdigit]: the number the ten digits
    write; [None] stands for the [ValueError] of a superscript and of a
    string longer than the limit. *)
Definition int (s : string) : option N :=
  if negb (max_str_digits =? 0)%nat && (max_str_digits <? String.length s)%nat
  then None
  else N.of_uint <$> NilEmpty.uint_of_string s.

(** [f"{n}"] for a natural number. *)
Definition str (n : N) : string := NilZero.string_of_uint (N.to_uint n).

(** The loop of lines 1325-1329, copying [unread] in chunks of [size]
    characters; [fuel] bounds its turns. *)
Fixpoint copy_chunks (size fuel : nat) (unread : string) : string :=
  match fuel with
  | O => EmptyString
  | S fuel =>
    match take_chars size unread with
    | EmptyString => EmptyString
    | chunk => chunk +:+ copy_chunks size fuel (PyStr.drop_chars size unread)
    end
  end.

(** What the start of [main] did: whether it printed the notice, the urls
    file afterwards ([None] when there is none), and whether the temporary
    file of [mkstemp] is still there. *)
Record outcome : Type := {
  printed : bool;
  urls_file : option string;
  temporary_left : bool
}.

(** Lines 1272-1335; [file] is the text of the urls file, [None] when
    [os.path.isfile] is false. Opening, writing and renaming are taken to
    succeed. *)
Definition starme_notice (file : option string) : result outcome :=
  match file with
  | None =>
    Return {| printed := true;
              urls_file := Some ("### starme = 2" +:+ newline);
              temporary_left := false |}
  | Some text =>
    let starme := (readline text).1 in
    if String.prefix marker starme then
      match split marker (strip is_space starme) !! 1%nat with
      | None => Raise IndexError
      | Some starme_counter =>
        if isdigit starme_counter then
          match int starme_counter with
          | None =>
            Return {| printed := true; urls_file := file; temporary_left := true |}
          | Some starme_counter =>
            let starme_counter :=
              if negb (starme_counter =? 0)%N then (starme_counter - 1)%N
              else starme_counter in
            let first_line :=
              if negb (starme_counter =? 0)%N
              then marker +:+ str starme_counter +:+ newline
              else EmptyString in
            let unread := (readline text).2 in
            Return {| printed := true;
                      urls_file :=
                        Some (first_line
                              +:+ copy_chunks (8 * 1024) (S (String.length unread)) unread);
                      temporary_left := false |}
          end
        else
          Return {| printed := false; urls_file := file; temporary_left := false |}
      end
    else
      Return {| printed := false; urls_file := file; temporary_left := false |}
  end.

End Counter.



End Notice.

(** * The order of a run *)

Module Schedule.

Import Orchestrator.

(** What a loop body does before its downloads: everything but the third
    gather, the making of directories and the transfers. *)
Definition probing (ev : event) : Prop :=
  match ev with
  | Stage _ TransferFiles _ => False
  | Item (Media.Makedirs _) => False
  | Item (Media.Download _ _) => False
  | _ => True
  end.




(** What the gather of the logins keeps for a protected series: the
    series when [login_protected] returned it, [None] when it returned
    [None], the exception when it raised. *)
Definition login_result (login_protected : series → result bool) (ps : series)
    : result (option series) :=
  match login_protected ps with
  | Return ok => Return (if ok then Some ps else None)
  | Raise e => Raise e
  end.

(** No gather of the eth phase. *)
Definition before_eth (ev : event) : Prop :=
  match ev with
  | Stage EthPhase _ _ => False
  | Refetch _ => False
  | _ => True
  end.

End Schedule.

(** * Example inputs *)

Module Examples.

Definition bytes_of (s : string) : list Byte.byte := String.list_byte_of_string s.

Definition size_of (data : list Byte.byte) : Z := Z.of_nat (length data).

(** A server that honours byte ranges for a resource [data]. *)
Definition range_server (data : list Byte.byte) : Transfer.server :=
  λ req,
    match req with
    | Transfer.NoRange =>
      {| Transfer.status := 200;
         Transfer.content_length := Some (size_of data);
         Transfer.content_range := None;
         Transfer.chunks := [data] |}
    | Transfer.RangeFrom start =>
      if start <? size_of data then
        {| Transfer.status := 206;
           Transfer.content_length := Some (size_of data - start);
           Transfer.content_range := Some (size_of data);
           Transfer.chunks := [drop (Z.to_nat start) data] |}
      else
        {| Transfer.status := 416;
           Transfer.content_length := Some 0;
           Transfer.content_range := Some (size_of data);
           Transfer.chunks := [] |}
    | Transfer.RangeSpan first last =>
      {| Transfer.status := 206;
         Transfer.content_length := Some (last - first + 1);
         Transfer.content_range := Some (size_of data);
         Transfer.chunks := [take (Z.to_nat (last - first + 1)) (drop (Z.to_nat first) data)] |}
    end.

(** A server that ignores the [Range] header and sends the whole of
    [data] with status 200. *)
Definition plain_server (data : list Byte.byte) : Transfer.server :=
  λ _,
    {| Transfer.status := 200;
       Transfer.content_length := Some (size_of data);
       Transfer.content_range := None;
       Transfer.chunks := [data] |}.

(** A server that answers 404 with a nine-byte body. *)
Definition missing_server : Transfer.server :=
  λ _,
    {| Transfer.status := 404;
       Transfer.content_length := Some 9;
       Transfer.content_range := None;
       Transfer.chunks := [bytes_of "Not Found"] |}.

(** A server that answers 500 with a body of undeclared length. *)
Definition failing_server : Transfer.server :=
  λ _,
    {| Transfer.status := 500;
       Transfer.content_length := None;
       Transfer.content_range := None;
       Transfer.chunks := [bytes_of "Internal Server Error"] |}.

(** Three coroutines, the second of which raises, for a limiter of
    capacity 2, and a run in which the first acquires, the second acquires
    and ends, and the third acquires. *)
Definition demo_coros : list (Limiter.coro Z) :=
  [ {| Limiter.pending := 1%nat; Limiter.ending := Return 10 |};
    {| Limiter.pending := 0%nat; Limiter.ending := Raise TimeoutError |};
    {| Limiter.pending := 2%nat; Limiter.ending := Return 30 |} ].

Definition demo_schedule : list nat := [0; 1; 1; 2]%nat.

Definition demo_state : Limiter.state Z :=
  {| Limiter.sem_value := 0%nat;
     Limiter.tasks :=
       [ Limiter.Inside {| Limiter.pending := 1%nat; Limiter.ending := Return 10 |};
         Limiter.Done (Raise TimeoutError);
         Limiter.Inside {| Limiter.pending := 2%nat; Limiter.ending := Return 30 |} ] |}.

(** The rest of that run, to the end of all three, and the state then. *)
Definition demo_rest : list nat := [0; 0; 2; 2; 2]%nat.

Definition demo_final : Limiter.state Z :=
  {| Limiter.sem_value := 2%nat;
     Limiter.tasks :=
       [ Limiter.Done (Return 10);
         Limiter.Done (Raise TimeoutError);
         Limiter.Done (Return 30) ] |}.

(** The portal of the examples: every media url serves the same seven
    bytes and honours ranges. *)
Definition demo_http : string → Transfer.server :=
  λ _, range_server (bytes_of "lecture").

Definition demo_strptime_year : string → result string :=
  λ _, Return "2024".

(** The item of an entry: one video source and an English subtitle; the
    entry [evB0] has a page without video and audio links. *)
Definition demo_item (e : Classifier.entry) : Media.media_metadata :=
  let entry_id := default "" (PyStr.after_first "ev" (Classifier.id e)) in
  {| Media.id := entry_id;
     Media.datetime := "2024-03-01__10_15";
     Media.url := "https://video.ethz.ch/s/v/" +:+ entry_id;
     Media.title := "Lecture 1";
     Media.series_title := "Algorithms";
     Media.video_sources :=
       if bool_decide (entry_id = "B0") then ∅
       else {[ "mid" := "https://cdn.ethz.ch/" +:+ entry_id +:+ ".mp4" ]};
     Media.subtitle_sources :=
       if bool_decide (entry_id = "B0") then ∅
       else {[ "en-US" := "https://cdn.ethz.ch/" +:+ entry_id +:+ ".vtt" ]};
     Media.audio_sources := ∅ |}.

Definition demo_process_entry
    : Orchestrator.series → Classifier.entry → bool → result Media.media_metadata :=
  λ _ e _, Return (demo_item e).

(** The pages of the examples: the open series shows its download button;
    on every other page neither button appears. *)
Definition demo_goto (video_page_url : string) : result Classifier.page :=
  if String.prefix "https://video.ethz.ch/open/" video_page_url
  then Return {| Classifier.download_visible := true;
                 Classifier.verify_visible := false |}
  else Return Classifier.timed_out.

Definition entry_A1 : Classifier.entry :=
  {| Classifier.typename := "AuthorizedEvent"; Classifier.id := "evA1" |}.

Definition entry_B0 : Classifier.entry :=
  {| Classifier.typename := "AuthorizedEvent"; Classifier.id := "evB0" |}.

(** Three series as the urls file gives them, before classification. *)
Definition open_one : Orchestrator.series :=
  {| Orchestrator.url := "https://video.ethz.ch/open";
     Orchestrator.title := "Algorithms";
     Orchestrator.entries := Some [entry_A1];
     Orchestrator.login_type := "" |}.

Definition open_two : Orchestrator.series :=
  {| Orchestrator.url := "https://video.ethz.ch/open";
     Orchestrator.title := "Algorithms";
     Orchestrator.entries := Some [entry_B0; entry_A1];
     Orchestrator.login_type := "" |}.

Definition slow_one : Orchestrator.series :=
  {| Orchestrator.url := "https://video.ethz.ch/slow";
     Orchestrator.title := "Algorithms";
     Orchestrator.entries := Some [entry_A1];
     Orchestrator.login_type := "" |}.

(** [main] in the setting of the examples: an eth login that succeeds,
    the default qualities and subtitle languages. *)
Definition demo_main : list Orchestrator.series → Effects.io Orchestrator.event unit :=
  Orchestrator.main demo_http demo_strptime_year demo_goto demo_process_entry
    (Return true) (λ _, Return true) (λ x, Return x)
    "/rec" "mid" (Some ["en-US"; "de-DE"]) "ogg".


(** Two recordings made within one minute, forty-five seconds apart. *)
Definition first_take : Timestamp.datetime :=
  {| Timestamp.year := 2024; Timestamp.month := 3; Timestamp.day := 1;
     Timestamp.hour := 10; Timestamp.minute := 15; Timestamp.second := 5;
     Timestamp.microsecond := 0; Timestamp.utcoffset := Some 0 |}.

Definition second_take : Timestamp.datetime :=
  {| Timestamp.year := 2024; Timestamp.month := 3; Timestamp.day := 1;
     Timestamp.hour := 10; Timestamp.minute := 15; Timestamp.second := 50;
     Timestamp.microsecond := 0; Timestamp.utcoffset := Some 0 |}.

(** A recording of the evening before. *)
Definition evening_before : Timestamp.datetime :=
  {| Timestamp.year := 2024; Timestamp.month := 2; Timestamp.day := 29;
     Timestamp.hour := 18; Timestamp.minute := 0; Timestamp.second := 0;
     Timestamp.microsecond := 0; Timestamp.utcoffset := Some 0 |}.

(** A urls file: a comment, a blank line, an open series, and a protected
    one with its credentials. *)
Definition demo_lines : list string :=
  [ "# my courses" +:+ PyText.newline;
    PyText.newline;
    "https://video.ethz.ch/open" +:+ PyText.newline;
    "  https://video.ethz.ch/slow  jane   s3cret " +:+ PyText.newline ].

(** A file system with the urls file in the current directory only. *)
Definition demo_isfile (path : string) : bool := String.eqb path "urls".

Definition demo_readlines (path : string) : list string := demo_lines.

(** The blocks of a realm: a series with two events, a block of text, and
    a single video. *)
Definition event_of (id : string) : Json.json Z :=
  Json.JDict [("__typename", Json.JString "AuthorizedEvent"); ("id", Json.JString id)].

Definition series_block : Json.json Z :=
  Json.JDict
    [ ("__typename", Json.JString "SeriesBlock");
      ("series", Json.JDict [("entries", Json.JList [event_of "evA1"; event_of "evB0"])]) ].

Definition text_block : Json.json Z :=
  Json.JDict [("__typename", Json.JString "TextBlock"); ("content", Json.JString "Welcome")].

Definition video_block : Json.json Z :=
  Json.JDict [("__typename", Json.JString "VideoBlock"); ("event", event_of "evC2")].

(** A block that is not a dictionary. *)
Definition broken_block : Json.json Z := Json.JString "SeriesBlock".

Definition demo_nonzero (n : Z) : bool := negb (n =? 0).

(** The links of a download dialog: two videos, a caption and an audio
    track. *)
Definition demo_links : list Dialog.link :=
  [ {| Dialog.href := Some "https://cdn.ethz.ch/A1_640.mp4";
       Dialog.text_content := " Video (640x360) " |};
    {| Dialog.href := Some "https://cdn.ethz.ch/A1_1280.mp4";
       Dialog.text_content := "Video (1280x720)" |};
    {| Dialog.href := Some "https://cdn.ethz.ch/A1.vtt";
       Dialog.text_content := "Caption (en-US)" |};
    {| Dialog.href := Some "https://cdn.ethz.ch/A1.ogg";
       Dialog.text_content := "Audio only" |} ].

(** What the loop over these links keeps. *)
Definition demo_sources : Dialog.sources :=
  {| Dialog.video_sources :=
       {[ "low" := "https://cdn.ethz.ch/A1_640.mp4";
          "mid" := "https://cdn.ethz.ch/A1_1280.mp4" ]};
     Dialog.subtitle_sources := {[ "en-US" := "https://cdn.ethz.ch/A1.vtt" ]};
     Dialog.audio_sources := {[ "ogg" := "https://cdn.ethz.ch/A1.ogg" ]} |}.

(** A protected series whose login times out. *)
Definition locked_one : Orchestrator.series :=
  {| Orchestrator.url := "https://video.ethz.ch/locked";
     Orchestrator.title := "Algorithms";
     Orchestrator.entries := Some [entry_A1];
     Orchestrator.login_type := "protected" |}.

Definition locked_download_phases
    : list Orchestrator.series → Effects.io Orchestrator.event unit :=
  Orchestrator.download_phases demo_http demo_strptime_year demo_process_entry
    (Return true) (λ _, Raise TimeoutError) (λ x, Return x)
    "/rec" "mid" (Some ["en-US"; "de-DE"]) "ogg".

End Examples.

(** * Properties *)

(** ** ResumableTransfer *)

Module TransferFacts.

Import Transfer.

Lemma raise_for_status_ok st : st < 400 → raise_for_status st = Return tt.
Proof.
  intros Hst. unfold raise_for_status.
  destruct (Z.leb_spec 400 st); [lia | reflexivity].
Qed.

Lemma raise_for_status_error st :
  400 ≤ st → raise_for_status st = Raise (ClientResponseError st).
Proof.
  intros Hst. unfold raise_for_status.
  destruct (Z.leb_spec 400 st); [reflexivity | lia].
Qed.

(** The first test of [download_file] compares the size on disk with the
    [Content-Length] of the response. *)
Lemma download_file_already (srv : server) (file : option (list Byte.byte)) :
  default 0 (content_length (srv (request_of (getsize file)))) ≤ getsize file →
  download_file srv file = untouched (Return tt) file.
Proof.
  intros Hlen. unfold download_file.
  destruct (Z.leb_spec (default 0 (content_length (srv (request_of (getsize file)))))
              (getsize file)); [reflexivity | lia].
Qed.

(** A 416 leaves the destination as it is. *)
Lemma download_file_416 (srv : server) (file : option (list Byte.byte)) :
  status (srv (request_of (getsize file))) = 416 →
  download_file srv file = untouched (Return tt) file.
Proof.
  intros Hst. unfold download_file. rewrite Hst.
  destruct (_ <=? _); reflexivity.
Qed.

(** Whenever the destination is opened, the mode is ["ab"] exactly when
    it already held bytes. *)
Lemma download_file_mode (srv : server) (file : option (list Byte.byte)) (m : open_mode) :
  opened (download_file srv file) = Some m →
  m = if 0 <? getsize file then ab else wb.
Proof.
  unfold download_file.
  repeat case_match; simpl; try discriminate.
  all: by intros [= <-].
Qed.

(** C5: when the destination holds at least the total the response
    declares (from [Content-Range] if present, else from
    [Content-Length]), and the response is a 416 or announces a body no
    longer than that total, [download_file] returns without opening the
    destination or writing a byte, the destination is what it was, and a
    further call does the same. *)
Theorem download_file_complete_noop (srv : server) (file : option (list Byte.byte)) :
  let resp := srv (request_of (getsize file)) in
  declared_total resp ≤ getsize file →
  status resp = 416 ∨ default 0 (content_length resp) ≤ declared_total resp →
  returned (download_file srv file) = Return tt ∧
  opened (download_file srv file) = None ∧
  written (download_file srv file) = [] ∧
  file_after (download_file srv file) = file ∧
  download_file srv (file_after (download_file srv file)) = download_file srv file.
Proof.
  intros resp Htotal Hresp.
  assert (Hnoop : download_file srv file = untouched (Return tt) file).
  { destruct Hresp as [H416 | Hlen].
    - by apply download_file_416.
    - apply download_file_already. fold resp. lia. }
  rewrite Hnoop. simpl. rewrite Hnoop. done.
Qed.

Lemma download_file_complete_noop_witness :
  let data := Examples.bytes_of "lecture" in
  let srv := Examples.range_server data in
  returned (download_file srv (Some data)) = Return tt ∧
  opened (download_file srv (Some data)) = None ∧
  written (download_file srv (Some data)) = [] ∧
  file_after (download_file srv (Some data)) = Some data ∧
  download_file srv (file_after (download_file srv (Some data)))
  = download_file srv (Some data).
Proof.
  intros data srv.
  apply (download_file_complete_noop srv (Some data)).
  - vm_compute. discriminate.
  - left. reflexivity.
Defined.

(** C2 (the code at the failing input): two bytes of a seven-byte file are
    on disk, the request carries [Range: bytes=2-], the server ignores it
    and answers 200 with the whole file and no [Content-Range]; the
    destination is opened in append mode and ends up holding the two old
    bytes followed by all seven. *)
Theorem download_file_appends_full_body :
  let data := Examples.bytes_of "lecture" in
  let partial := Examples.bytes_of "le" in
  let srv := Examples.plain_server data in
  request_of (getsize (Some partial)) = RangeFrom 2 ∧
  content_range (srv (RangeFrom 2)) = None ∧
  opened (download_file srv (Some partial)) = Some ab ∧
  file_after (download_file srv (Some partial)) = Some (Examples.bytes_of "lelecture").
Proof. vm_compute. done. Qed.

(** C4 (the code at the failing input): with twenty bytes on disk and a 404
    whose body is nine bytes long, and with nothing on disk and a 500 of
    undeclared length, [download_file] returns as if the file were
    complete: nothing is raised. *)
Theorem download_file_swallows_error_status :
  let partial := repeat Byte.x00 20 in
  status (Examples.missing_server (RangeFrom 20)) = 404 ∧
  returned (download_file Examples.missing_server (Some partial)) = Return tt ∧
  file_after (download_file Examples.missing_server (Some partial)) = Some partial ∧
  status (Examples.failing_server NoRange) = 500 ∧
  returned (download_file Examples.failing_server None) = Return tt ∧
  file_after (download_file Examples.failing_server None) = None.
Proof. vm_compute. done. Qed.

(** A complete file against the two kinds of server, for every resource:
    the one that honours the range answers 416, the one that ignores it
    announces the length the file already has; neither call touches the
    file. *)
Lemma complete_file_untouched (data : list Byte.byte) :
  download_file (Examples.range_server data) (Some data)
  = untouched (Return tt) (Some data) ∧
  download_file (Examples.plain_server data) (Some data)
  = untouched (Return tt) (Some data).
Proof.
  split.
  - apply download_file_already. unfold request_of, Examples.range_server. simpl.
    destruct (Z.ltb_spec 0 (Z.of_nat (length data))); simpl.
    + unfold Examples.size_of. rewrite Z.ltb_irrefl. simpl. lia.
    + unfold Examples.size_of. lia.
  - apply download_file_already. unfold Examples.plain_server, Examples.size_of.
    simpl. lia.
Qed.

(** Downloading and then calling again, against both kinds of server. *)
Example download_twice :
  let data := Examples.bytes_of "lecture" in
  file_after (download_file (Examples.range_server data) None) = Some data ∧
  download_file (Examples.range_server data)
    (file_after (download_file (Examples.range_server data) None))
  = untouched (Return tt) (Some data) ∧
  file_after (download_file (Examples.plain_server data) None) = Some data ∧
  download_file (Examples.plain_server data)
    (file_after (download_file (Examples.plain_server data) None))
  = untouched (Return tt) (Some data).
Proof. vm_compute. done. Qed.

(** The three ways a call against a server that honours ranges goes: a
    fresh download writes the whole file; with two of seven bytes on disk
    the five others are appended; with four of seven on disk the 206
    announces a [Content-Length] of three, which the first test takes for
    the size of the file, and the call returns with the file still
    partial. *)
Example download_file_against_range_server :
  let data := Examples.bytes_of "lecture" in
  let srv := Examples.range_server data in
  download_file srv None
  = {| returned := Return tt; opened := Some wb; written := data;
       progress_total := Some 7; file_after := Some data |} ∧
  download_file srv (Some (Examples.bytes_of "le"))
  = {| returned := Return tt; opened := Some ab;
       written := Examples.bytes_of "cture";
       progress_total := Some 7; file_after := Some data |} ∧
  download_file srv (Some (Examples.bytes_of "lect"))
  = untouched (Return tt) (Some (Examples.bytes_of "lect")).
Proof. vm_compute. done. Qed.

End TransferFacts.

(** ** ConcurrencyLimiter *)

Module LimiterFacts.

Import Limiter.

Local Open Scope nat_scope.

Section Gather.

Context {T : Type}.

Implicit Types (c : coro T) (t : task T) (s : state T) (coros : list (coro T)).

Lemma sum_list_with_insert (w : task T → nat) (l : list (task T)) i t t' :
  l !! i = Some t →
  sum_list_with w (<[i:=t']> l) + w t = sum_list_with w l + w t'.
Proof.
  revert i. induction l as [|t0 l IH]; intros [|i] Hi; simplify_eq/=; [lia|].
  specialize (IH _ Hi). lia.
Qed.

(** The three ways a resumption goes. *)
Lemma fire_cases i s s' :
  fire i s = Some s' →
  (∃ c v, tasks s !! i = Some (Waiting c) ∧ sem_value s = S v ∧
          s' = {| sem_value := v; tasks := <[i:=Inside c]> (tasks s) |}) ∨
  (∃ c k, tasks s !! i = Some (Inside c) ∧ pending c = S k ∧
          s' = {| sem_value := sem_value s;
                  tasks := <[i:=Inside {| pending := k; ending := ending c |}]> (tasks s) |}) ∨
  (∃ c, tasks s !! i = Some (Inside c) ∧ pending c = 0 ∧
        s' = {| sem_value := S (sem_value s);
                tasks := <[i:=Done (ending c)]> (tasks s) |}).
Proof.
  unfold fire. intros Hfire.
  destruct (tasks s !! i) as [[c|c|r]|] eqn:Hi; try discriminate.
  - destruct (sem_value s) as [|v] eqn:Hv; simplify_eq. left. eauto.
  - destruct (pending c) as [|k] eqn:Hk; simplify_eq.
    + right. right. eauto.
    + right. left. eauto.
Qed.

Lemma stems_from_insert coros (l : list (task T)) i c0 t' :
  Forall2 stems_from coros l →
  coros !! i = Some c0 →
  stems_from c0 t' →
  Forall2 stems_from coros (<[i:=t']> l).
Proof.
  intros Hall Hc Ht'.
  rewrite <-(list_insert_id coros i c0) by done.
  by apply Forall2_insert.
Qed.

Lemma invariant_init n coros : invariant n coros (init n coros).
Proof.
  split; simpl.
  - unfold holders. simpl.
    assert (sum_list_with holds_slot (Waiting <$> coros) = 0) as ->; [|lia].
    induction coros; simpl; auto.
  - apply Forall2_fmap_r, Forall_Forall2_diag, Forall_forall. by intros.
Qed.

Lemma invariant_fire n coros i s s' :
  invariant n coros s → fire i s = Some s' → invariant n coros s'.
Proof.
  intros [Hbal Hstem] Hfire.
  destruct (fire_cases _ _ _ Hfire)
    as [(c & v & Hi & Hv & ->) | [(c & k & Hi & Hk & ->) | (c & Hi & Hk & ->)]];
    destruct (Forall2_lookup_r _ _ _ _ _ Hstem Hi) as (c0 & Hc0 & Hfrom);
    simpl in Hfrom; unfold invariant, holders in *; simpl.
  - pose proof (sum_list_with_insert holds_slot _ _ _ (Inside c) Hi) as Hsum.
    simpl in Hsum. split; [lia|].
    apply (stems_from_insert _ _ _ c0); [done..|]. simpl. by subst.
  - pose proof (sum_list_with_insert holds_slot _ _ _
                  (Inside {| pending := k; ending := ending c |}) Hi) as Hsum.
    simpl in Hsum. split; [lia|].
    apply (stems_from_insert _ _ _ c0); [done..|]. simpl. split; [tauto|lia].
  - pose proof (sum_list_with_insert holds_slot _ _ _ (Done (ending c)) Hi) as Hsum.
    simpl in Hsum. split; [lia|].
    apply (stems_from_insert _ _ _ c0); [done..|]. simpl. tauto.
Qed.

Lemma invariant_run n coros schedule s s' :
  invariant n coros s → run schedule s = Some s' → invariant n coros s'.
Proof.
  revert s. induction schedule as [|i rest IH]; intros s Hinv Hrun; simpl in Hrun.
  - by simplify_eq.
  - destruct (fire i s) as [s1|] eqn:Hfire; [|done].
    eauto using invariant_fire.
Qed.

Lemma run_app schedule1 schedule2 s s1 s2 :
  run schedule1 s = Some s1 → run schedule2 s1 = Some s2 →
  run (schedule1 ++ schedule2) s = Some s2.
Proof.
  revert s. induction schedule1 as [|i rest IH]; intros s H1 H2; simpl in *.
  - by simplify_eq.
  - destruct (fire i s); [eauto|done].
Qed.

(** Every resumption uses up one unit of the budget. *)
Lemma budget_fire i s s' : fire i s = Some s' → budget s' + 1 = budget s.
Proof.
  intros Hfire. unfold budget.
  destruct (fire_cases _ _ _ Hfire)
    as [(c & v & Hi & Hv & ->) | [(c & k & Hi & Hk & ->) | (c & Hi & Hk & ->)]];
    simpl.
  - pose proof (sum_list_with_insert remaining _ _ _ (Inside c) Hi) as Hsum.
    simpl in Hsum. lia.
  - pose proof (sum_list_with_insert remaining _ _ _
                  (Inside {| pending := k; ending := ending c |}) Hi) as Hsum.
    simpl in Hsum. lia.
  - pose proof (sum_list_with_insert remaining _ _ _ (Done (ending c)) Hi) as Hsum.
    simpl in Hsum. lia.
Qed.

Lemma budget_run schedule s s' :
  run schedule s = Some s' → budget s' + length schedule = budget s.
Proof.
  revert s. induction schedule as [|i rest IH]; intros s Hrun; simpl in *.
  - simplify_eq. lia.
  - destruct (fire i s) as [s1|] eqn:Hfire; [|done].
    apply IH in Hrun. apply budget_fire in Hfire. lia.
Qed.

Lemma holder_or_none (l : list (task T)) :
  sum_list_with holds_slot l = 0 ∨ ∃ i c, l !! i = Some (Inside c).
Proof.
  induction l as [|t l [IH | (i & c & IH)]].
  - by left.
  - destruct t as [c|c|r]; simpl; auto.
    right. by exists 0, c.
  - right. by exists (S i), c.
Qed.

(** With a capacity of at least one there is no deadlock: while a task is
    unfinished some task can be resumed. *)
Lemma progress n coros s :
  0 < n → invariant n coros s → gathered s = None →
  ∃ i s', fire i s = Some s'.
Proof.
  intros Hn [Hbal _] Hnone.
  destruct (holder_or_none (tasks s)) as [Hzero | (i & c & Hi)].
  - apply mapM_None, Exists_exists in Hnone as (t & Ht & Hout).
    apply list_elem_of_lookup in Ht as [i Hi].
    unfold holders in Hbal. rewrite Hzero in Hbal.
    destruct t as [c|c|r]; simpl in Hout; [| |done].
    + exists i. unfold fire. rewrite Hi.
      destruct (sem_value s) eqn:Hv; [lia|eauto].
    + exists i. unfold fire. rewrite Hi. destruct (pending c); eauto.
  - exists i. unfold fire. rewrite Hi. destruct (pending c); eauto.
Qed.

(** From every reachable state the run can be completed. *)
Lemma completion n coros s :
  0 < n → invariant n coros s →
  ∃ schedule s', run schedule s = Some s' ∧ is_Some (gathered s').
Proof.
  intros Hn. remember (budget s) as b eqn:Hb. revert s Hb.
  induction b as [b IH] using lt_wf_ind. intros s -> Hinv.
  destruct (gathered s) as [rs|] eqn:Hg.
  - exists [], s. rewrite Hg. eauto.
  - destruct (progress _ _ _ Hn Hinv Hg) as (i & s1 & Hfire).
    pose proof (budget_fire _ _ _ Hfire) as Hless.
    destruct (IH (budget s1) ltac:(lia) s1 eq_refl
                (invariant_fire _ _ _ _ _ Hinv Hfire))
      as (schedule & s' & Hrun & Hdone).
    exists (i :: schedule), s'. simpl. rewrite Hfire. eauto.
Qed.

(** What [gather] returns is the ending of every coroutine, in order. *)
Lemma gathered_endings n coros s rs :
  invariant n coros s → gathered s = Some rs → rs = ending <$> coros.
Proof.
  intros [_ Hstem] Hg. apply mapM_Some in Hg.
  symmetry. apply list_eq_Forall2, Forall2_fmap_l.
  revert rs Hg. induction Hstem as [|c0 t coros l Hfrom _ IH]; intros rs Hg.
  - inversion Hg. constructor.
  - inversion Hg as [|? r ? rs' Hout Hrest]; subst.
    constructor; [|by apply IH].
    destruct t; simplify_eq/=. done.
Qed.

(** C6: in every run of [gather_with_concurrency(n, *coros)], whatever
    the interleaving, at most [n] tasks are inside [async with semaphore]
    at any point, and the counter and the holders add up to [n]; a task
    enters only while fewer than [n] hold a slot, and the holders decrease
    only when a task that held a slot has ended (with a value or an
    exception); no run is longer than the budget of the start; and with
    [n] of at least 1 a run with an unfinished task can always go on, and
    can be completed to a state in which every task is done. *)
Theorem gather_bounded (n : nat) coros schedule s :
  run schedule (init n coros) = Some s →
  (holders s ≤ n ∧ sem_value s + holders s = n) ∧
  (∀ i s', fire i s = Some s' →
     (holders s < holders s' →
        holders s < n ∧
        ∃ c, tasks s !! i = Some (Waiting c) ∧ tasks s' !! i = Some (Inside c)) ∧
     (holders s' < holders s →
        ∃ c, tasks s !! i = Some (Inside c) ∧ pending c = 0 ∧
             tasks s' !! i = Some (Done (ending c)))) ∧
  length schedule ≤ budget (init n coros) ∧
  (0 < n →
     (gathered s = None → ∃ i s', fire i s = Some s') ∧
     ∃ schedule' s',
       run (schedule ++ schedule') (init n coros) = Some s' ∧
       Forall (λ t, ∃ r, t = Done r) (tasks s') ∧
       length (tasks s') = length coros).
Proof.
  intros Hrun.
  pose proof (invariant_run _ _ _ _ _ (invariant_init n coros) Hrun) as Hinv.
  split_and!.
  - destruct Hinv as [Hbal _]. lia.
  - by destruct Hinv.
  - intros i s' Hfire. destruct Hinv as [Hbal _]. unfold holders in *.
    destruct (fire_cases _ _ _ Hfire)
      as [(c & v & Hi & Hv & ->) | [(c & k & Hi & Hk & ->) | (c & Hi & Hk & ->)]];
      simpl.
    + pose proof (sum_list_with_insert holds_slot _ _ _ (Inside c) Hi) as Hsum.
      simpl in Hsum. split; [|lia].
      intros _. split; [lia|]. exists c. split; [done|].
      apply list_lookup_insert_eq. by eapply lookup_lt_Some.
    + pose proof (sum_list_with_insert holds_slot _ _ _
                    (Inside {| pending := k; ending := ending c |}) Hi) as Hsum.
      simpl in Hsum. split; lia.
    + pose proof (sum_list_with_insert holds_slot _ _ _ (Done (ending c)) Hi) as Hsum.
      simpl in Hsum. split; [lia|].
      intros _. exists c. split_and!; [done..|].
      apply list_lookup_insert_eq. by eapply lookup_lt_Some.
  - apply budget_run in Hrun. lia.
  - intros Hn. split; [by eapply progress|].
    destruct (completion _ _ _ Hn Hinv) as (schedule' & s' & Hrun' & Hdone).
    exists schedule', s'. split_and!.
    + by eapply run_app.
    + apply mapM_is_Some in Hdone. eapply Forall_impl; [exact Hdone|].
      intros [c|c|r] [r' Hr]; simplify_eq/=. eauto.
    + pose proof (invariant_run _ _ _ _ _ Hinv Hrun') as [_ Hstem].
      symmetry. by eapply Forall2_length.
Qed.

(** C7: in every run of [gather_with_concurrency(n, *coros)] there is one
    task per coroutine, in the order given; a finished task carries the
    ending of its own coroutine, value or exception, whatever the others
    did; [gather] returns nothing while a task is unfinished, also when
    others have raised; what it returns is the list of the endings in the
    order of the coroutines; and with [n] of at least 1 every run can be
    continued until it returns that list. *)
Theorem gather_results_in_order (n : nat) coros schedule s :
  run schedule (init n coros) = Some s →
  length (tasks s) = length coros ∧
  (∀ i c r, coros !! i = Some c → tasks s !! i = Some (Done r) → r = ending c) ∧
  (∀ i t, tasks s !! i = Some t → outcome_of t = None → gathered s = None) ∧
  (∀ rs, gathered s = Some rs →
     rs = ending <$> coros ∧ ∀ i c, coros !! i = Some c → rs !! i = Some (ending c)) ∧
  (0 < n →
     ∃ schedule' s',
       run (schedule ++ schedule') (init n coros) = Some s' ∧
       gathered s' = Some (ending <$> coros)).
Proof.
  intros Hrun.
  pose proof (invariant_run _ _ _ _ _ (invariant_init n coros) Hrun) as Hinv.
  split_and!.
  - destruct Hinv as [_ Hstem]. symmetry. by eapply Forall2_length.
  - intros i c r Hc Ht. destruct Hinv as [_ Hstem].
    by pose proof (Forall2_lookup_lr _ _ _ _ _ _ Hstem Hc Ht).
  - intros i t Ht Hout. apply mapM_None, Exists_exists.
    exists t. split; [by eapply list_elem_of_lookup_2|done].
  - intros rs Hg. pose proof (gathered_endings _ _ _ _ Hinv Hg) as ->.
    split; [done|]. intros i c Hc. by rewrite list_lookup_fmap, Hc.
  - intros Hn.
    destruct (completion _ _ _ Hn Hinv) as (schedule' & s' & Hrun' & [rs Hg]).
    exists schedule', s'. split; [by eapply run_app|].
    pose proof (invariant_run _ _ _ _ _ Hinv Hrun') as Hinv'.
    by rewrite Hg, (gathered_endings _ _ _ _ Hinv' Hg).
Qed.

End Gather.

Import Examples.

Lemma gather_bounded_witness :
  run demo_schedule (init 2 demo_coros) = Some demo_state ∧
  holders demo_state ≤ 2 ∧
  length demo_schedule ≤ budget (init 2 demo_coros) ∧
  ∃ schedule' s',
    run (demo_schedule ++ schedule') (init 2 demo_coros) = Some s' ∧
    Forall (λ t, ∃ r, t = Done r) (tasks s') ∧
    length (tasks s') = length demo_coros.
Proof.
  assert (Hrun : run demo_schedule (init 2 demo_coros) = Some demo_state)
    by reflexivity.
  destruct (gather_bounded 2 demo_coros demo_schedule demo_state Hrun)
    as ((Hle & _) & _ & Hlen & Hlive).
  destruct (Hlive ltac:(lia)) as [_ Hcomplete].
  split; [exact Hrun|]. split; [exact Hle|]. split; [exact Hlen|exact Hcomplete].
Defined.

Lemma gather_results_in_order_witness :
  run (demo_schedule ++ demo_rest) (init 2 demo_coros) = Some demo_final ∧
  length (tasks demo_final) = length demo_coros ∧
  gathered demo_final = Some [Return 10; Raise TimeoutError; Return 30]%Z ∧
  ∀ rs, gathered demo_final = Some rs → rs = ending <$> demo_coros.
Proof.
  assert (Hrun : run (demo_schedule ++ demo_rest) (init 2 demo_coros) = Some demo_final)
    by reflexivity.
  destruct (gather_results_in_order 2 demo_coros (demo_schedule ++ demo_rest)
              demo_final Hrun) as (Hlen & _ & _ & Hrs & _).
  split; [exact Hrun|]. split; [exact Hlen|]. split; [reflexivity|].
  intros rs Hg. by destruct (Hrs rs Hg) as [-> _].
Defined.

End LimiterFacts.

(** ** Effects *)

Module EffectsFacts.

Import Effects.

(** Membership in a trace built by concatenation. *)
Ltac in_trace :=
  repeat (rewrite elem_of_app || rewrite elem_of_cons); auto 20.

Section Laws.

Context {E : Type}.

(** How a sequence of two computations ends. *)
Lemma bind_unfold {A B} (m : io E A) (k : A → io E B) fs :
  (m ≫= k) fs =
  match m fs with
  | (Return a, fs1, t1) => ((k a fs1).1.1, (k a fs1).1.2, t1 ++ (k a fs1).2)
  | (Raise e, fs1, t1) => (Raise e, fs1, t1)
  end.
Proof.
  unfold mbind, io_bind.
  destruct (m fs) as [[[a|e] fs1] t1]; [|done].
  by destruct (k a fs1) as [[r fs2] t2].
Qed.

Lemma ret_bind {A B} (a : A) (k : A → io E B) fs : (mret a ≫= k) fs = k a fs.
Proof.
  rewrite bind_unfold. unfold mret, io_ret.
  by destruct (k a fs) as [[r fs1] t1].
Qed.

Lemma bind_ext {A B} (m : io E A) (k1 k2 : A → io E B) fs :
  (∀ a fs1, k1 a fs1 = k2 a fs1) → (m ≫= k1) fs = (m ≫= k2) fs.
Proof.
  intros Hk. rewrite !bind_unfold.
  destruct (m fs) as [[[a|e] fs1] t1]; [|done]. by rewrite Hk.
Qed.

(** A sequence that returns is made of two parts that return. *)
Lemma bind_return {A B} (m : io E A) (k : A → io E B) fs b fs' t :
  (m ≫= k) fs = (Return b, fs', t) →
  ∃ a fs1 t1 t2,
    m fs = (Return a, fs1, t1) ∧ k a fs1 = (Return b, fs', t2) ∧ t = t1 ++ t2.
Proof.
  rewrite bind_unfold.
  destruct (m fs) as [[[a|e] fs1] t1]; [|done].
  destruct (k a fs1) as [[r fs2] t2] eqn:Hk. simpl.
  intros [= -> -> <-]. by exists a, fs1, t1, t2.
Qed.

(** Sequencing, when what follows depends on how the first part ended. *)
Lemma traces_bind_return {A B} (Q : E → Prop) (m : io E A) (k : A → io E B) :
  traces Q m →
  (∀ fs a fs1 t1, m fs = (Return a, fs1, t1) → Forall Q (k a fs1).2) →
  traces Q (m ≫= k).
Proof.
  intros Hm Hk fs. rewrite bind_unfold. specialize (Hm fs).
  destruct (m fs) as [[[a|e] fs1] t1] eqn:Hmfs; simpl in *; [|done].
  apply Forall_app. eauto.
Qed.

Lemma traces_bind {A B} (Q : E → Prop) (m : io E A) (k : A → io E B) :
  traces Q m → (∀ a, traces Q (k a)) → traces Q (m ≫= k).
Proof.
  intros Hm Hk. apply traces_bind_return; [done|].
  intros fs a fs1 t1 _. apply Hk.
Qed.

Lemma traces_ret {A} (Q : E → Prop) (a : A) : traces Q (mret a : io E A).
Proof. intros fs. constructor. Qed.

Lemma traces_throw {A} (Q : E → Prop) e : traces Q (throw e : io E A).
Proof. intros fs. constructor. Qed.

Lemma traces_lift_result {A} (Q : E → Prop) (r : result A) :
  traces Q (lift_result r : io E A).
Proof. intros fs. constructor. Qed.

Lemma traces_emit (Q : E → Prop) ev : Q ev → traces Q (emit ev).
Proof. intros Hev fs. by repeat constructor. Qed.

Lemma traces_capture {A} (Q : E → Prop) (m : io E A) :
  traces Q m → traces Q (capture m).
Proof.
  intros Hm fs. specialize (Hm fs). unfold capture.
  by destruct (m fs) as [[r fs1] t1].
Qed.

Lemma traces_for_each {A} (Q : E → Prop) (body : A → io E unit) xs :
  (∀ x, x ∈ xs → traces Q (body x)) → traces Q (for_each body xs).
Proof.
  induction xs as [|x xs IH]; intros Hbody; simpl.
  - apply traces_ret.
  - apply traces_bind.
    + apply Hbody. left.
    + intros _. apply IH. intros y Hy. apply Hbody. by right.
Qed.

Lemma traces_gather {A} (Q : E → Prop) n (tasks : list (io E A)) :
  Forall (traces Q) tasks → traces Q (gather_with_concurrency n tasks).
Proof.
  induction 1 as [|task tasks Htask _ IH]; simpl.
  - apply traces_ret.
  - apply traces_bind; [by apply traces_capture|]. intros r.
    apply traces_bind; [done|]. intros rs. apply traces_ret.
Qed.

(** [gather_with_concurrency] never raises, and keeps for every task how
    that task ended. *)
Lemma gather_results {A} (Q : result A → Prop) n (tasks : list (io E A)) fs :
  (∀ task fs0, task ∈ tasks → Q (task fs0).1.1) →
  ∃ rs, (gather_with_concurrency n tasks fs).1.1 = Return rs ∧ Forall Q rs.
Proof.
  revert fs. induction tasks as [|task tasks IH]; intros fs HQ; simpl.
  - exists []. split; [done|constructor].
  - rewrite bind_unfold. unfold capture at 1.
    destruct (task fs) as [[r fs1] t1] eqn:Htask.
    rewrite bind_unfold.
    destruct (IH fs1) as (rs & Hrs & Hall).
    { intros task' fs0 Hin. apply HQ. by right. }
    destruct (gather_with_concurrency n tasks fs1) as [[r' fs2] t2].
    simpl in Hrs. subst r'. simpl. exists (r :: rs). split; [done|].
    constructor; [|done].
    specialize (HQ task fs (ltac:(left))). by rewrite Htask in HQ.
Qed.

(** A loop that returns has run its body, to its end, for every element. *)
Lemma for_each_return {A} (body : A → io E unit) xs fs fs' t x :
  for_each body xs fs = (Return tt, fs', t) →
  x ∈ xs →
  ∃ fs0 fs1 t0, body x fs0 = (Return tt, fs1, t0) ∧ t0 ⊆ t.
Proof.
  revert fs t. induction xs as [|y xs IH]; intros fs t Hrun Hx.
  - by apply elem_of_nil in Hx.
  - simpl in Hrun.
    apply bind_return in Hrun as ([] & fs1 & t1 & t2 & Hbody & Hrest & ->).
    apply elem_of_cons in Hx as [-> | Hx].
    + exists fs, fs1, t1. split; [done|]. intros ev Hev. in_trace.
    + destruct (IH _ _ Hrest Hx) as (fs0 & fs2 & t0 & Hb & Hsub).
      exists fs0, fs2, t0. split; [done|]. intros ev Hev. apply Hsub in Hev. in_trace.
Qed.

End Laws.

Lemma traces_relabel {E F A} (Q : F → Prop) (f : E → F) (m : io E A) :
  (∀ ev, Q (f ev)) → traces Q (relabel f m).
Proof.
  intros HQ fs. unfold relabel. destruct (m fs) as [[r fs1] t1]. simpl.
  apply Forall_fmap, Forall_forall. intros ev _. apply HQ.
Qed.

End EffectsFacts.

(** ** Item download *)

Module MediaFacts.

Import Effects EffectsFacts Media.

Section Item.

Variable http : string → Transfer.server.
Variable strptime_year : string → result string.

Lemma subtitle_loop_available md get_size media_url media_extension media_filename
    download_path_with_parent subtitles filesize fs :
  subtitle_loop http md get_size media_url media_extension media_filename
    download_path_with_parent subtitles filesize fs
  = subtitle_loop http md get_size media_url media_extension media_filename
      download_path_with_parent (available md subtitles) filesize fs.
Proof.
  revert filesize fs.
  induction subtitles as [|subtitle rest IH]; intros filesize fs; [done|].
  unfold available. rewrite filter_cons. simpl.
  destruct (subtitle_sources md !! subtitle) as [subtitle_url|] eqn:Hsub.
  - rewrite decide_True by eauto. simpl. rewrite Hsub.
    apply bind_ext. intros subtitle_extension fs1.
    destruct get_size.
    + apply bind_ext. intros size fs2. apply IH.
    + apply bind_ext. intros _ fs2. apply IH.
  - rewrite decide_False by (by intros []). apply IH.
Qed.

Lemma subtitle_loop_unavailable md get_size media_url media_extension media_filename
    download_path_with_parent subtitles filesize fs :
  subtitle_loop http md get_size media_url media_extension media_filename
    download_path_with_parent (unavailable md subtitles) filesize fs
  = (Return filesize, fs, []).
Proof.
  induction subtitles as [|subtitle rest IH]; [done|].
  unfold unavailable. rewrite filter_cons.
  destruct (decide (subtitle_sources md !! subtitle = None)) as [Hsub|]; [|done].
  simpl. by rewrite Hsub.
Qed.

Lemma subtitle_part_loop md get_size media_url media_extension media_filename
    download_path_with_parent subtitles filesize fs :
  subtitle_part http md get_size media_url media_extension media_filename
    download_path_with_parent (Some subtitles) filesize fs
  = subtitle_loop http md get_size media_url media_extension media_filename
      download_path_with_parent subtitles filesize fs.
Proof. by destruct subtitles. Qed.

(** C9: for every item and every list of configured languages, the call
    does exactly what it does with only the languages the item has a
    subtitle for (same result, same files, same calls, in both modes): a
    language without an entry in [subtitle_sources] adds no call and no
    error. And the languages the item lacks, configured alone, give the
    run of no subtitles configured at all, so the media transfer is what
    it is without them. *)
Theorem absent_subtitle_skipped (md : media_metadata)
    (download_path video_quality audio_quality : string)
    (subtitles : list string) (get_size : bool) (fs : files) :
  download_video_subtitles_and_maybe_audio http strptime_year (Return md)
    download_path video_quality (Some subtitles) audio_quality get_size fs
  = download_video_subtitles_and_maybe_audio http strptime_year (Return md)
      download_path video_quality (Some (available md subtitles)) audio_quality
      get_size fs
  ∧
  download_video_subtitles_and_maybe_audio http strptime_year (Return md)
    download_path video_quality (Some (unavailable md subtitles)) audio_quality
    get_size fs
  = download_video_subtitles_and_maybe_audio http strptime_year (Return md)
      download_path video_quality None audio_quality get_size fs.
Proof.
  unfold download_video_subtitles_and_maybe_audio.
  split.
  - rewrite !ret_bind.
    apply bind_ext; intros media_url fs2.
    apply bind_ext; intros media_extension fs3.
    apply bind_ext; intros year fs4.
    apply bind_ext; intros filesize fs5.
    rewrite !bind_unfold, !subtitle_part_loop.
    by rewrite subtitle_loop_available.
  - rewrite !ret_bind.
    apply bind_ext; intros media_url fs2.
    apply bind_ext; intros media_extension fs3.
    apply bind_ext; intros year fs4.
    apply bind_ext; intros filesize fs5.
    rewrite !bind_unfold, !subtitle_part_loop.
    by rewrite subtitle_loop_unavailable.
Qed.

End Item.

(** The choice of the media url: the video of the configured quality
    whenever the item has it; the audio of the configured quality only for
    an item without any video source; [None] for an item with neither, and
    for an item whose videos are all of other qualities. *)
Lemma select_media_url_video md video_quality audio_quality media_url :
  video_sources md !! video_quality = Some media_url →
  select_media_url md video_quality audio_quality = Some media_url.
Proof.
  intros Hvideo. unfold select_media_url.
  rewrite bool_decide_eq_false_2; [done|].
  intros Hempty. by rewrite Hempty, lookup_empty in Hvideo.
Qed.

Lemma select_media_url_audio md video_quality audio_quality :
  video_sources md = ∅ →
  select_media_url md video_quality audio_quality = audio_sources md !! audio_quality.
Proof.
  intros Hempty. unfold select_media_url.
  rewrite bool_decide_eq_true_2, Hempty, lookup_empty by done.
  by destruct (audio_sources md !! audio_quality).
Qed.

Lemma select_media_url_other_quality md video_quality audio_quality :
  video_sources md ≠ ∅ →
  select_media_url md video_quality audio_quality = video_sources md !! video_quality.
Proof.
  intros Hvideo. unfold select_media_url. by rewrite bool_decide_eq_false_2.
Qed.

Import Examples.

(** The item has an English subtitle and no German one; with both
    configured, the video and the English subtitle are downloaded and the
    call returns. *)
Example subtitle_skip :
  download_video_subtitles_and_maybe_audio demo_http demo_strptime_year
    (Return (demo_item entry_A1)) "/rec" "mid" (Some ["en-US"; "de-DE"]) "ogg"
    false ∅
  = (Return None,
     {[ "/rec/2024_Algorithms/2024-03-01__10_15__Lecture_1__A1.mp4" := bytes_of "lecture";
        "/rec/2024_Algorithms/2024-03-01__10_15__Lecture_1__A1.vtt" := bytes_of "lecture" ]},
     [ Makedirs "/rec/2024_Algorithms";
       Download "https://cdn.ethz.ch/A1.mp4"
         "/rec/2024_Algorithms/2024-03-01__10_15__Lecture_1__A1.mp4";
       Download "https://cdn.ethz.ch/A1.vtt"
         "/rec/2024_Algorithms/2024-03-01__10_15__Lecture_1__A1.vtt" ]).
Proof. vm_compute. reflexivity. Qed.

End MediaFacts.

(** ** AcquisitionOrchestrator *)

Module OrchestratorFacts.

Import Effects EffectsFacts Orchestrator.

(** The buckets are three filters of the series, and only the protected
    test has an [else]. *)
Lemma bucket_filters l o p e :
  bucket l o p e =
  (o ++ filter (λ x, login_type x = "open") l,
   p ++ filter (λ x, login_type x = "protected") l,
   e ++ filter (λ x, login_type x ≠ "protected") l).
Proof.
  revert o p e. induction l as [|x l IH]; intros o p e; simpl.
  - by rewrite !app_nil_r.
  - rewrite !filter_cons.
    repeat case_bool_decide; rewrite IH; repeat case_decide;
      try congruence; by rewrite <-?app_assoc.
Qed.

Lemma elem_of_open_bucket l x :
  x ∈ open_bucket l ↔ x ∈ l ∧ login_type x = "open".
Proof.
  unfold open_bucket. rewrite bucket_filters. simpl.
  rewrite list_elem_of_filter. tauto.
Qed.

Lemma elem_of_protected_bucket l x :
  x ∈ protected_bucket l ↔ x ∈ l ∧ login_type x = "protected".
Proof.
  unfold protected_bucket. rewrite bucket_filters. simpl.
  rewrite list_elem_of_filter. tauto.
Qed.

Lemma elem_of_eth_bucket l x :
  x ∈ eth_bucket l ↔ x ∈ l ∧ login_type x ≠ "protected".
Proof.
  unfold eth_bucket. rewrite bucket_filters. simpl.
  rewrite list_elem_of_filter. tauto.
Qed.

(** [sum] over a list that holds an exception raises. *)
Lemma py_sum_exception acc filesizes e :
  Raise e ∈ filesizes → py_sum acc filesizes = Raise TypeError.
Proof.
  revert acc. induction filesizes as [|r rest IH]; intros acc Hin.
  - by apply elem_of_nil in Hin.
  - apply elem_of_cons in Hin as [<- | Hin]; [done|].
    destruct r as [[size|]|]; simpl; auto.
Qed.

Section Main.

Variable http : string → Transfer.server.
Variable strptime_year : string → result string.
Variable goto : string → result Classifier.page.
Variable process_entry : series → Classifier.entry → bool → result Media.media_metadata.
Variable login_eth : result bool.
Variable login_protected : series → result bool.
Variable graphql_append_json_metadata : series → result series.
Variable save_dir video_quality : string.
Variable subtitles : option (list string).
Variable audio_quality : string.

Local Abbreviation fetch_and_download :=
  (fetch_and_download http strptime_year process_entry
     save_dir video_quality subtitles audio_quality).
Local Abbreviation phases_of :=
  (phases_of http strptime_year process_entry login_eth login_protected
     graphql_append_json_metadata save_dir video_quality subtitles audio_quality).
Local Abbreviation download_phases :=
  (download_phases http strptime_year process_entry login_eth login_protected
     graphql_append_json_metadata save_dir video_quality subtitles audio_quality).
Local Abbreviation main :=
  (main http strptime_year goto process_entry login_eth login_protected
     graphql_append_json_metadata save_dir video_quality subtitles audio_quality).
Local Abbreviation item :=
  (item http strptime_year save_dir video_quality subtitles audio_quality).

Lemma traces_impl {A} (Q Q' : event → Prop) (m : io event A) :
  (∀ ev, Q ev → Q' ev) → traces Q m → traces Q' m.
Proof. intros HQ Hm fs. eapply Forall_impl; [apply Hm|done]. Qed.

Lemma traces_item (Q : event → Prop) md get_size :
  (∀ c, Q (Item c)) → traces Q (item md get_size).
Proof. intros HQ. by apply traces_relabel. Qed.

(** The loop body for [x] in phase [p] starts gathers of that phase and
    for that element only. *)
Lemma fetch_and_download_stages_of p x data flag :
  traces (stages_of p x) (fetch_and_download p x data flag).
Proof.
  unfold Orchestrator.fetch_and_download.
  apply traces_bind; [apply traces_lift_result|]. intros es.
  apply traces_bind; [by apply traces_emit|]. intros _.
  apply traces_bind.
  { apply traces_gather, Forall_fmap, Forall_forall. intros e _. simpl.
    apply traces_bind; [by apply traces_emit|]. intros _.
    apply traces_lift_result. }
  intros videos_data.
  apply traces_bind; [by apply traces_emit|]. intros _.
  apply traces_bind.
  { apply traces_gather, Forall_fmap, Forall_forall. intros md _.
    by apply traces_item. }
  intros filesizes.
  apply traces_bind; [apply traces_lift_result|]. intros total.
  apply traces_bind; [by apply traces_emit|]. intros _.
  apply traces_bind.
  { apply traces_gather, Forall_fmap, Forall_forall. intros md _.
    by apply traces_item. }
  intros _. apply traces_ret.
Qed.

(** A loop body that returns has started its three gathers. *)
Lemma fetch_and_download_return p x data flag fs fs' t st :
  fetch_and_download p x data flag fs = (Return tt, fs', t) →
  Stage p st x ∈ t.
Proof.
  unfold Orchestrator.fetch_and_download. intros Hrun.
  apply bind_return in Hrun as (es & fs1 & t1 & t1' & _ & Hrun & ->).
  apply bind_return in Hrun as ([] & fs2 & t2 & t2' & Hfetch & Hrun & ->).
  apply bind_return in Hrun as (videos_data & fs3 & t3 & t3' & _ & Hrun & ->).
  apply bind_return in Hrun as ([] & fs4 & t4 & t4' & Hprobe & Hrun & ->).
  apply bind_return in Hrun as (filesizes & fs5 & t5 & t5' & _ & Hrun & ->).
  apply bind_return in Hrun as (total & fs6 & t6 & t6' & _ & Hrun & ->).
  apply bind_return in Hrun as ([] & fs7 & t7 & t7' & Htransfer & Hrun & ->).
  unfold emit in Hfetch, Hprobe, Htransfer.
  injection Hfetch as _ <-. injection Hprobe as _ <-. injection Htransfer as _ <-.
  destruct st; in_trace.
Qed.

Lemma eth_login_return eth_series fs eth_success fs1 t1 :
  eth_login login_eth eth_series fs = (Return eth_success, fs1, t1) →
  match eth_series with
  | [] => eth_success = None
  | _ :: _ => ∃ ok, eth_success = Some ok ∧ login_eth = Return ok
  end.
Proof.
  unfold eth_login. destruct eth_series as [|x rest].
  - by intros [= <- _ _].
  - intros Hrun.
    apply bind_return in Hrun as ([] & fs2 & t2 & t2' & _ & Hrun & _).
    apply bind_return in Hrun as (ok & fs3 & t3 & t3' & Hlogin & Hrun & _).
    unfold lift_result in Hlogin. unfold mret, io_ret in Hrun.
    simplify_eq. eauto.
Qed.

Lemma traces_eth_login (Q : event → Prop) eth_series :
  Q LoginEth → traces Q (eth_login login_eth eth_series).
Proof.
  intros HQ. unfold eth_login. destruct eth_series; [apply traces_ret|].
  apply traces_bind; [by apply traces_emit|]. intros _.
  apply traces_bind; [apply traces_lift_result|]. intros ok. apply traces_ret.
Qed.

(** The logins gathered for the protected series are for those series. *)
Lemma gathered_logins protected_series fs gathered fs1 t1 :
  gather_with_concurrency 10
    (login_protected_first_video login_protected <$> protected_series) fs
  = (Return gathered, fs1, t1) →
  Forall (λ r, ∀ y, r = Return (Some y) → y ∈ protected_series) gathered.
Proof.
  intros Hrun.
  destruct (gather_results (λ r, ∀ y, r = Return (Some y) → y ∈ protected_series)
              10 (login_protected_first_video login_protected <$> protected_series) fs)
    as (rs & Hrs & Hall).
  - intros task fs0 Hin. apply list_elem_of_fmap in Hin as (ps & -> & Hps).
    unfold login_protected_first_video.
    rewrite bind_unfold. simpl. rewrite bind_unfold. simpl.
    destruct (login_protected ps) as [[]|]; simpl; intros y [=]; by subst.
  - rewrite Hrun in Hrs. simpl in Hrs. by injection Hrs as <-.
Qed.

Lemma traces_download_protected_videos open_series protected_series eth_series
    gathered flag :
  Forall (λ r, ∀ y, r = Return (Some y) → y ∈ protected_series) gathered →
  traces (placed login_eth open_series protected_series eth_series)
    (download_protected_videos http strptime_year process_entry
       save_dir video_quality subtitles audio_quality
       (filter (λ r, logged_in r = true) gathered) flag).
Proof.
  intros Hall. apply traces_for_each. intros r Hr.
  apply list_elem_of_filter in Hr as [_ Hr].
  destruct r as [[y|]|]; try apply traces_throw.
  eapply traces_impl; [|apply fetch_and_download_stages_of].
  intros [p' st y'| | | | |]; simpl; try done. intros [-> ->].
  eapply Forall_forall in Hall; eauto.
Qed.

(** Every gather of the phases is for an element of the bucket of its
    phase, and the eth phase runs only after a successful [login_eth]. *)
Lemma phases_placed open_series protected_series eth_series :
  traces (placed login_eth open_series protected_series eth_series)
    (phases_of open_series protected_series eth_series).
Proof.
  unfold Orchestrator.phases_of.
  apply traces_bind.
  { apply traces_for_each. intros x Hx.
    eapply traces_impl; [|apply fetch_and_download_stages_of].
    intros [p' st y| | | | |]; simpl; try done. by intros [-> ->]. }
  intros _. apply traces_bind_return; [by apply traces_eth_login|].
  intros fs eth_success fs1 t1 Heth.
  assert (Hok : default false eth_success = true → login_eth = Return true).
  { apply eth_login_return in Heth. destruct eth_series.
    - by subst.
    - destruct Heth as (ok & -> & Hlogin). simpl. by intros ->. }
  clear Heth.
  match goal with |- Forall ?Q (?m ?fs).2 => revert fs; change (traces Q m) end.
  apply traces_bind_return.
  { apply traces_gather, Forall_fmap, Forall_forall. intros ps _. simpl.
    unfold login_protected_first_video.
    apply traces_bind; [by apply traces_emit|]. intros _.
    apply traces_bind; [apply traces_lift_result|]. intros ok. apply traces_ret. }
  intros fs2 gathered fs3 t3 Hgather.
  apply gathered_logins in Hgather.
  match goal with |- Forall ?Q (?m ?fs).2 => revert fs; change (traces Q m) end.
  apply traces_bind.
  { destruct (default false eth_success); [apply traces_ret|].
    by apply traces_download_protected_videos. }
  intros _. destruct (default false eth_success) eqn:Heth; [|apply traces_ret].
  apply traces_bind; [by apply traces_download_protected_videos|]. intros _.
  apply traces_for_each. intros x Hx.
  apply traces_bind; [by apply traces_emit|]. intros _.
  apply traces_bind; [apply traces_lift_result|]. intros data.
  eapply traces_impl; [|apply fetch_and_download_stages_of].
  intros [p' st y| | | | |]; simpl; try done. intros [-> ->]. auto.
Qed.

(** When the phases run to their end, every open series has had its three
    gathers in the open phase, and, if [login_eth] returned [True], every
    eth series its three in the eth phase. *)
Lemma phases_return open_series protected_series eth_series fs fs' t :
  phases_of open_series protected_series eth_series fs = (Return tt, fs', t) →
  (∀ x st, x ∈ open_series → Stage OpenPhase st x ∈ t) ∧
  (login_eth = Return true → ∀ x st, x ∈ eth_series → Stage EthPhase st x ∈ t).
Proof.
  unfold Orchestrator.phases_of. intros Hrun.
  apply bind_return in Hrun as ([] & fs1 & t1 & t1' & Hopen & Hrun & ->).
  apply bind_return in Hrun as (eth_success & fs2 & t2 & t2' & Heth & Hrun & ->).
  apply bind_return in Hrun as (gathered & fs3 & t3 & t3' & Hgather & Hrun & ->).
  apply bind_return in Hrun as ([] & fs4 & t4 & t4' & Hprotected & Hrun & ->).
  split.
  - intros x st Hx.
    destruct (for_each_return _ _ _ _ _ _ Hopen Hx) as (fs0 & fs0' & t0 & Hbody & Hsub).
    apply (fetch_and_download_return _ _ _ _ _ _ _ st) in Hbody.
    apply Hsub in Hbody. in_trace.
  - intros Hlogin x st Hx.
    apply eth_login_return in Heth.
    assert (eth_success = Some true) as ->.
    { destruct eth_series as [|x0 rest]; [by apply elem_of_nil in Hx|].
      destruct Heth as (ok & -> & Hok). congruence. }
    cbn [default from_option] in Hrun.
    apply bind_return in Hrun as ([] & fs5 & t5 & t5' & _ & Hrun & ->).
    destruct (for_each_return _ _ _ _ _ _ Hrun Hx) as (fs0 & fs0' & t0 & Hbody & Hsub).
    apply bind_return in Hbody as ([] & fs6 & t6 & t6' & _ & Hbody & ->).
    apply bind_return in Hbody as (data & fs7 & t7 & t7' & _ & Hbody & ->).
    apply (fetch_and_download_return _ _ _ _ _ _ _ st) in Hbody.
    assert (Hin : Stage EthPhase st x ∈ t6 ++ t7 ++ t7') by in_trace.
    apply Hsub in Hin. in_trace.
Qed.

(** The classification loop reads and writes no file and leaves no trace;
    when it returns, every series has the type [get_series_type] gave for
    its first entry. *)
Lemma classify_all_spec l fs :
  (classify_all goto l fs).1.2 = fs ∧
  (classify_all goto l fs).2 = [] ∧
  ∀ l', (classify_all goto l fs).1.1 = Return l' →
    Forall2 (λ x x', ∃ e rest ty,
               entries x = Some (e :: rest) ∧
               Classifier.get_series_type goto e (url x) = Return ty ∧
               x' = set_login_type ty x) l l'.
Proof.
  induction l as [|x l (IHfs & IHt & IHl)]; simpl.
  - split_and!; [done..|]. intros l' [= <-]. constructor.
  - destruct (entries x) as [[|e rest]|] eqn:Hentries; simpl;
      [by split_and!..| |by split_and!].
    rewrite bind_unfold. unfold lift_result at 1.
    destruct (Classifier.get_series_type goto e (url x)) as [ty|err] eqn:Hty;
      simpl; [|by split_and!].
    rewrite bind_unfold.
    destruct (classify_all goto l fs) as [[[rest'|err] fs1] t1]; simpl in *;
      subst; [|by split_and!].
    split_and!; [done..|]. intros l' [= <-].
    constructor; [|by apply IHl]. by exists e, rest, ty.
Qed.

Lemma download_phases_placed l :
  traces (placed login_eth (open_bucket l) (protected_bucket l) (eth_bucket l))
    (download_phases l).
Proof.
  unfold Orchestrator.download_phases, open_bucket, protected_bucket, eth_bucket.
  destruct (bucket l [] [] []) as [[open_series protected_series] eth_series].
  apply phases_placed.
Qed.

Lemma download_phases_return l fs fs' t :
  download_phases l fs = (Return tt, fs', t) →
  (∀ x st, x ∈ open_bucket l → Stage OpenPhase st x ∈ t) ∧
  (login_eth = Return true → ∀ x st, x ∈ eth_bucket l → Stage EthPhase st x ∈ t).
Proof.
  unfold Orchestrator.download_phases, open_bucket, eth_bucket.
  destruct (bucket l [] [] []) as [[open_series protected_series] eth_series].
  apply phases_return.
Qed.

(** [main] is the phases over the classified series, or ends with the
    exception of the classification loop. *)
Lemma main_cases l fs :
  (∃ l', result_of (classify_all goto l) fs = Return l' ∧
         main l fs = download_phases l' fs) ∨
  (∃ err, main l fs = (Raise err, fs, [])).
Proof.
  unfold Orchestrator.main, result_of. rewrite bind_unfold.
  destruct (classify_all_spec l fs) as (Hfs & Ht & _).
  destruct (classify_all goto l fs) as [[[l'|err] fs1] t1]; simpl in *;
    subst fs1 t1.
  - left. exists l'. split; [done|].
    by destruct (download_phases l' fs) as [[r fs2] t2].
  - right. eauto.
Qed.


(** C1, as the code has it: when the probe of a series shows neither
    button, [get_series_type] returns ["none"]; the series is then outside
    the open and the protected bucket and inside the eth bucket; no gather
    of the open or the protected phase is for it; none of the eth phase
    either unless [login_eth] returned [True]; and when it did and [main]
    runs to its end, the series has had its three gathers (pages, sizes,
    downloads) in the eth phase. *)
Theorem timed_out_series_goes_to_eth_bucket (l : list series) (x : series)
    (e : Classifier.entry) (rest : list Classifier.entry) (entry_id : string)
    (fs : files) :
  x ∈ l →
  entries x = Some (e :: rest) →
  Classifier.typename e ≠ "NotAllowed" →
  PyStr.after_first "ev" (Classifier.id e) = Some entry_id →
  goto (url x +:+ "/v/" +:+ entry_id) = Return Classifier.timed_out →
  let x' := set_login_type "none" x in
  Classifier.get_series_type goto e (url x) = Return "none" ∧
  (∀ l', result_of (classify_all goto l) fs = Return l' →
     x' ∈ l' ∧ (x' ∉ open_bucket l') ∧ (x' ∉ protected_bucket l') ∧
     x' ∈ eth_bucket l') ∧
  (∀ st, (Stage OpenPhase st x' ∉ trace_of (main l) fs) ∧
         (Stage ProtectedPhase st x' ∉ trace_of (main l) fs)) ∧
  (login_eth ≠ Return true → ∀ st, Stage EthPhase st x' ∉ trace_of (main l) fs) ∧
  (login_eth = Return true → result_of (main l) fs = Return tt →
     ∀ st, Stage EthPhase st x' ∈ trace_of (main l) fs).
Proof.
  intros Hx Hentries Htype Hid Hgoto x'.
  assert (Hnone : Classifier.get_series_type goto e (url x) = Return "none").
  { unfold Classifier.get_series_type.
    rewrite bool_decide_eq_false_2, Hid, Hgoto by done. done. }
  assert (Hbuckets : ∀ l', result_of (classify_all goto l) fs = Return l' →
            x' ∈ l' ∧ (x' ∉ open_bucket l') ∧ (x' ∉ protected_bucket l') ∧
            x' ∈ eth_bucket l').
  { intros l' Hl'. destruct (classify_all_spec l fs) as (_ & _ & Hall).
    specialize (Hall l' Hl').
    apply list_elem_of_lookup in Hx as [i Hi].
    destruct (Forall2_lookup_l _ _ _ _ _ Hall Hi)
      as (y & Hy & e' & rest' & ty & He' & Hty & ->).
    rewrite Hentries in He'. injection He' as <- <-.
    rewrite Hnone in Hty. injection Hty as <-.
    apply list_elem_of_lookup_2 in Hy.
    rewrite elem_of_open_bucket, elem_of_protected_bucket, elem_of_eth_bucket.
    split; [done|]. split; [|split].
    - by intros [_ ?].
    - by intros [_ ?].
    - done. }
  assert (Hplaced : ∀ ev, ev ∈ trace_of (main l) fs →
            ∃ l', result_of (classify_all goto l) fs = Return l' ∧
                  placed login_eth (open_bucket l') (protected_bucket l')
                    (eth_bucket l') ev).
  { intros ev Hev. unfold trace_of in Hev.
    destruct (main_cases l fs) as [(l' & Hl' & Hmain) | (err & Hmain)];
      rewrite Hmain in Hev; [|by apply elem_of_nil in Hev].
    exists l'. split; [done|].
    pose proof (download_phases_placed l' fs) as Hall.
    rewrite Forall_forall in Hall. by apply Hall. }
  split; [done|]. split; [done|]. split; [|split].
  - intros st. split; intros Hev;
      apply Hplaced in Hev as (l' & Hl' & Hev);
      apply Hbuckets in Hl' as (_ & Ho & Hp & _); done.
  - intros Hlogin st Hev.
    apply Hplaced in Hev as (l' & Hl' & [_ Hev]). done.
  - intros Hlogin Hret st. unfold result_of, trace_of in *.
    destruct (main_cases l fs) as [(l' & Hl' & Hmain) | (err & Hmain)];
      rewrite Hmain in *; [|done].
    apply Hbuckets in Hl' as (_ & _ & _ & He).
    destruct (download_phases l' fs) as [[r fs2] t2] eqn:Hrun.
    simpl in Hret. rewrite Hret in Hrun.
    apply download_phases_return in Hrun as [_ Heth]. by apply Heth.
Qed.

End Main.

Import Examples.


Lemma timed_out_series_goes_to_eth_bucket_witness :
  let x' := set_login_type "none" slow_one in
  Classifier.get_series_type demo_goto entry_A1 (url slow_one) = Return "none" ∧
  (∀ st, (Stage OpenPhase st x' ∉ trace_of (demo_main [slow_one]) ∅) ∧
         (Stage ProtectedPhase st x' ∉ trace_of (demo_main [slow_one]) ∅)) ∧
  (∀ st, Stage EthPhase st x' ∈ trace_of (demo_main [slow_one]) ∅).
Proof.
  intros x'.
  destruct (timed_out_series_goes_to_eth_bucket demo_http demo_strptime_year
              demo_goto demo_process_entry (Return true) (λ _, Return true)
              (λ y, Return y) "/rec" "mid" (Some ["en-US"; "de-DE"]) "ogg"
              [slow_one] slow_one entry_A1 [] "A1" ∅)
    as (Hnone & _ & Hout & _ & Hin).
  - left.
  - reflexivity.
  - discriminate.
  - reflexivity.
  - reflexivity.
  - split; [exact Hnone|]. split; [exact Hout|].
    apply Hin; [reflexivity|]. vm_compute. reflexivity.
Defined.

(** C1 as stated fails: the probe of the one series shows neither button,
    [get_series_type] returns ["none"], and [main], with an eth login that
    succeeds, fetches its page, probes the sizes and downloads its video
    and subtitle in the eth phase. *)
Lemma timed_out_series_is_downloaded :
  let x' := set_login_type "none" slow_one in
  Classifier.get_series_type demo_goto entry_A1 (url slow_one) = Return "none" ∧
  demo_main [slow_one] ∅ =
    (Return tt,
     {[ "/rec/2024_Algorithms/2024-03-01__10_15__Lecture_1__A1.mp4" := bytes_of "lecture";
        "/rec/2024_Algorithms/2024-03-01__10_15__Lecture_1__A1.vtt" := bytes_of "lecture" ]},
     [ LoginEth;
       Refetch x';
       Stage EthPhase MetadataFetch x';
       ProcessEntry x' entry_A1;
       Stage EthPhase SizeProbe x';
       Item (Media.GetSize "https://cdn.ethz.ch/A1.mp4");
       Item (Media.GetSize "https://cdn.ethz.ch/A1.mp4");
       Stage EthPhase TransferFiles x';
       Item (Media.Makedirs "/rec/2024_Algorithms");
       Item (Media.Download "https://cdn.ethz.ch/A1.mp4"
               "/rec/2024_Algorithms/2024-03-01__10_15__Lecture_1__A1.mp4");
       Item (Media.Download "https://cdn.ethz.ch/A1.vtt"
               "/rec/2024_Algorithms/2024-03-01__10_15__Lecture_1__A1.vtt") ]).
Proof. vm_compute. split; reflexivity. Qed.

(** C8 (the code at the failing input): an open series of two items, the
    first with neither video nor audio sources. Its size probe raises
    [AttributeError], which [gather] keeps in [filesizes]; the sibling's
    probe still runs; then [sum(filesizes)] raises [TypeError] and [main]
    ends there: no download is started and nothing is on disk, while the
    sibling alone, in a series of its own, is downloaded. *)
Theorem item_without_sources_aborts_siblings :
  let x' := set_login_type "open" open_two in
  let sibling := "/rec/2024_Algorithms/2024-03-01__10_15__Lecture_1__A1.mp4" in
  Media.select_media_url (demo_item entry_B0) "mid" "ogg" = None ∧
  result_of
    (item demo_http demo_strptime_year "/rec" "mid" (Some ["en-US"; "de-DE"]) "ogg"
       (Return (demo_item entry_B0)) true) ∅ = Raise AttributeError ∧
  demo_main [open_two] ∅ =
    (Raise TypeError, ∅,
     [ Stage OpenPhase MetadataFetch x';
       ProcessEntry x' entry_B0;
       ProcessEntry x' entry_A1;
       Stage OpenPhase SizeProbe x';
       Item (Media.GetSize "https://cdn.ethz.ch/A1.mp4");
       Item (Media.GetSize "https://cdn.ethz.ch/A1.mp4") ]) ∧
  files_of (demo_main [open_two]) ∅ !! sibling = None ∧
  files_of (demo_main [open_one]) ∅ !! sibling = Some (bytes_of "lecture").
Proof. vm_compute. split_and!; reflexivity. Qed.

End OrchestratorFacts.

(** ** The timestamp in file names *)

Module TimestampFacts.

Import Timestamp.

(** Strings that start with parts of one length compare by those parts
    first. *)
Lemma compare_append (p1 p2 r1 r2 : string) :
  String.length p1 = String.length p2 →
  String.compare (p1 +:+ r1) (p2 +:+ r2) =
  match String.compare p1 p2 with
  | Eq => String.compare r1 r2
  | c => c
  end.
Proof.
  revert p2. induction p1 as [|c1 p1 IH]; intros [|c2 p2] Hlen;
    simpl in *; try discriminate; [done|].
  destruct (Ascii.compare c1 c2); auto.
Qed.

Lemma compare_refl (s : string) : String.compare s s = Eq.
Proof.
  induction s as [|c s IH]; simpl; [done|].
  unfold Ascii.compare. by rewrite N.compare_refl.
Qed.

Lemma lex_compare_app (xs ys xs' ys' : list Z) :
  length xs = length ys →
  lex_compare (xs ++ xs') (ys ++ ys') =
  match lex_compare xs ys with
  | Eq => lex_compare xs' ys'
  | c => c
  end.
Proof.
  revert ys. induction xs as [|x xs IH]; intros [|y ys] Hlen;
    simpl in *; try discriminate; [done|].
  destruct (x ?= y); auto.
Qed.

(** Decimal digits compare as the numbers they stand for. *)
Lemma digit_compare (a b : Z) :
  0 ≤ a < 10 → 0 ≤ b < 10 →
  Ascii.compare (digit a) (digit b) = (a ?= b).
Proof.
  intros Ha Hb. unfold Ascii.compare, digit.
  rewrite !Z.mod_small by lia.
  rewrite !N_ascii_embedding by lia.
  rewrite <-N2Z.inj_compare, !N2Z.inj_add, !Z2N.id by lia.
  apply Z.add_compare_mono_l.
Qed.

(** A number compares as its quotient and remainder do, in that order. *)
Lemma compare_div_mod (a b k : Z) :
  0 < k →
  (a ?= b) =
  match a / k ?= b / k with
  | Eq => a mod k ?= b mod k
  | c => c
  end.
Proof.
  intros Hk.
  pose proof (Z.div_mod a k ltac:(lia)) as Ha.
  pose proof (Z.div_mod b k ltac:(lia)) as Hb.
  pose proof (Z.mod_pos_bound a k Hk) as Ha'.
  pose proof (Z.mod_pos_bound b k Hk) as Hb'.
  destruct (Z.compare_spec (a / k) (b / k)) as [Heq|Hlt|Hgt].
  - destruct (Z.compare_spec (a mod k) (b mod k));
      [apply Z.compare_eq_iff|apply Z.compare_lt_iff|apply Z.compare_gt_iff]; nia.
  - apply Z.compare_lt_iff. nia.
  - apply Z.compare_gt_iff. nia.
Qed.

Lemma pad2_compare (a b : Z) :
  0 ≤ a < 100 → 0 ≤ b < 100 →
  String.compare (pad2 a) (pad2 b) = (a ?= b).
Proof.
  intros Ha Hb. unfold pad2. simpl.
  assert (Hda : digit a = digit (a mod 10)).
  { unfold digit. by rewrite Z.mod_mod by lia. }
  assert (Hdb : digit b = digit (b mod 10)).
  { unfold digit. by rewrite Z.mod_mod by lia. }
  rewrite Hda, Hdb.
  rewrite !digit_compare
    by (try apply Z.mod_pos_bound; try (split; [apply Z.div_pos|apply Z.div_lt_upper_bound]); lia).
  rewrite (compare_div_mod a b 10) by lia.
  destruct (a / 10 ?= b / 10); try done.
  by destruct (a mod 10 ?= b mod 10).
Qed.

Lemma pad2_length (a : Z) : String.length (pad2 a) = 2%nat.
Proof. done. Qed.

Lemma pad4_compare (a b : Z) :
  0 ≤ a < 10000 → 0 ≤ b < 10000 →
  String.compare (pad4 a) (pad4 b) = (a ?= b).
Proof.
  intros Ha Hb. unfold pad4.
  rewrite compare_append by done.
  rewrite !pad2_compare
    by (try apply Z.mod_pos_bound; try (split; [apply Z.div_pos|apply Z.div_lt_upper_bound]); lia).
  by rewrite (compare_div_mod a b 100) by lia.
Qed.

Lemma pad4_length (a : Z) : String.length (pad4 a) = 4%nat.
Proof. done. Qed.

(** What [valid] says of the printed fields. *)
Lemma valid_bounds (d : datetime) :
  valid d = true →
  1 ≤ year d < 10000 ∧ 0 ≤ month d < 100 ∧ 0 ≤ day d < 100 ∧
  0 ≤ hour d < 100 ∧ 0 ≤ minute d < 100.
Proof.
  unfold valid, days_in_month. intros Hvalid.
  repeat (apply andb_prop in Hvalid as [Hvalid ?]).
  repeat case_match; lia.
Qed.

(** The formatted strings compare as the printed fields do. *)
Lemma strftime_compare (a b : datetime) :
  valid a = true → valid b = true →
  String.compare (strftime a) (strftime b)
  = lex_compare (printed_fields a) (printed_fields b).
Proof.
  intros Ha Hb.
  apply valid_bounds in Ha as (Hya & Hma & Hda & Hha & Hmia).
  apply valid_bounds in Hb as (Hyb & Hmb & Hdb & Hhb & Hmib).
  unfold strftime, printed_fields.
  rewrite compare_append, pad4_compare by (done || lia). simpl lex_compare.
  destruct (year a ?= year b); try done.
  rewrite (compare_append "-" "-"), compare_refl by done.
  rewrite compare_append, pad2_compare by done.
  destruct (month a ?= month b); try done.
  rewrite (compare_append "-" "-"), compare_refl by done.
  rewrite compare_append, pad2_compare by done.
  destruct (day a ?= day b); try done.
  rewrite (compare_append "__" "__"), compare_refl by done.
  rewrite compare_append, pad2_compare by done.
  destruct (hour a ?= hour b); try done.
  rewrite (compare_append "_" "_"), compare_refl by done.
  rewrite pad2_compare by done.
  by destruct (minute a ?= minute b).
Qed.

(** The calendar: a year has 365 days, or 366 when it is a leap year. *)
Lemma days_before_year_step (y : Z) :
  days_before_year (y + 1)
  = days_before_year y + 365 + (if is_leap y then 1 else 0).
Proof.
  unfold days_before_year, is_leap.
  replace (y + 1 - 1) with y by lia.
  destruct (Z.eqb_spec (y mod 4) 0), (Z.eqb_spec (y mod 100) 0),
    (Z.eqb_spec (y mod 400) 0); simpl;
    Z.to_euclidean_division_equations; lia.
Qed.

Lemma days_before_year_mono (y1 y2 : Z) :
  y1 ≤ y2 → days_before_year y1 ≤ days_before_year y2.
Proof.
  unfold days_before_year. intros Hy.
  Z.to_euclidean_division_equations. lia.
Qed.

Lemma day_of_year_bounds (y m d : Z) :
  1 ≤ m ≤ 12 → 1 ≤ d ≤ days_in_month y m →
  1 ≤ days_before_month y m + d ≤ 365 + (if is_leap y then 1 else 0).
Proof.
  intros Hm Hd.
  assert (Hcases : m = 1 ∨ m = 2 ∨ m = 3 ∨ m = 4 ∨ m = 5 ∨ m = 6 ∨ m = 7 ∨
                   m = 8 ∨ m = 9 ∨ m = 10 ∨ m = 11 ∨ m = 12) by lia.
  unfold days_before_month, days_in_month in *.
  destruct_or!; subst m; simpl in *; destruct (is_leap y); simpl in *; lia.
Qed.

Lemma day_of_year_mono (y m1 d1 m2 d2 : Z) :
  1 ≤ m1 → m1 < m2 → m2 ≤ 12 →
  1 ≤ d1 ≤ days_in_month y m1 → 1 ≤ d2 →
  days_before_month y m1 + d1 < days_before_month y m2 + d2.
Proof.
  intros H1 H12 H2 Hd1 Hd2.
  assert (Hc1 : m1 = 1 ∨ m1 = 2 ∨ m1 = 3 ∨ m1 = 4 ∨ m1 = 5 ∨ m1 = 6 ∨ m1 = 7 ∨
                m1 = 8 ∨ m1 = 9 ∨ m1 = 10 ∨ m1 = 11) by lia.
  assert (Hc2 : m2 = 2 ∨ m2 = 3 ∨ m2 = 4 ∨ m2 = 5 ∨ m2 = 6 ∨ m2 = 7 ∨
                m2 = 8 ∨ m2 = 9 ∨ m2 = 10 ∨ m2 = 11 ∨ m2 = 12) by lia.
  unfold days_before_month, days_in_month in *.
  destruct_or!; subst m1 m2; simpl in *; destruct (is_leap y); simpl in *; lia.
Qed.

(** A number compares as its multiples and remainders do, in that order. *)
Lemma compare_mul_add (q1 r1 q2 r2 k : Z) :
  0 ≤ r1 < k → 0 ≤ r2 < k →
  (q1 * k + r1 ?= q2 * k + r2) =
  match q1 ?= q2 with
  | Eq => r1 ?= r2
  | c => c
  end.
Proof.
  intros Hr1 Hr2.
  destruct (Z.compare_spec q1 q2) as [->|Hlt|Hgt].
  - apply Z.add_compare_mono_l.
  - apply Z.compare_lt_iff. nia.
  - apply Z.compare_gt_iff. nia.
Qed.

(** Valid dates compare by year, month and day as their day numbers do. *)
Lemma ymd2ord_compare (y1 m1 d1 y2 m2 d2 : Z) :
  1 ≤ m1 ≤ 12 → 1 ≤ d1 ≤ days_in_month y1 m1 →
  1 ≤ m2 ≤ 12 → 1 ≤ d2 ≤ days_in_month y2 m2 →
  lex_compare [y1; m1; d1] [y2; m2; d2] = (ymd2ord y1 m1 d1 ?= ymd2ord y2 m2 d2).
Proof.
  intros Hm1 Hd1 Hm2 Hd2. unfold ymd2ord. simpl.
  pose proof (day_of_year_bounds y1 m1 d1 Hm1 Hd1) as Hb1.
  pose proof (day_of_year_bounds y2 m2 d2 Hm2 Hd2) as Hb2.
  destruct (Z.compare_spec y1 y2) as [->|Hlt|Hgt].
  - destruct (Z.compare_spec m1 m2) as [->|Hlt|Hgt].
    + rewrite <-!Z.add_assoc, !Z.add_compare_mono_l. by destruct (d1 ?= d2).
    + symmetry. apply Z.compare_lt_iff.
      pose proof (day_of_year_mono y2 m1 d1 m2 d2). lia.
    + symmetry. apply Z.compare_gt_iff.
      pose proof (day_of_year_mono y2 m2 d2 m1 d1). lia.
  - symmetry. apply Z.compare_lt_iff.
    pose proof (days_before_year_step y1).
    pose proof (days_before_year_mono (y1 + 1) y2). lia.
  - symmetry. apply Z.compare_gt_iff.
    pose proof (days_before_year_step y2).
    pose proof (days_before_year_mono (y2 + 1) y1). lia.
Qed.

Lemma valid_ranges (d : datetime) :
  valid d = true →
  1 ≤ year d ≤ 9999 ∧ 1 ≤ month d ≤ 12 ∧
  1 ≤ day d ≤ days_in_month (year d) (month d) ∧
  0 ≤ hour d < 24 ∧ 0 ≤ minute d < 60 ∧ 0 ≤ second d < 60 ∧
  0 ≤ microsecond d < 1000000.
Proof.
  unfold valid. intros Hvalid.
  repeat (apply andb_prop in Hvalid as [Hvalid ?]). lia.
Qed.

(** The comparison of the fields is the comparison of the instants, for
    valid datetimes of one offset. *)
Lemma fields_order_is_instant_order (a b : datetime) :
  valid a = true → valid b = true →
  lex_compare (fields a) (fields b)
  = (local_microseconds a ?= local_microseconds b).
Proof.
  intros Ha Hb.
  apply valid_ranges in Ha as (Hya & Hma & Hda & Hha & Hmia & Hsa & Husa).
  apply valid_ranges in Hb as (Hyb & Hmb & Hdb & Hhb & Hmib & Hsb & Husb).
  unfold local_microseconds.
  rewrite !compare_mul_add by lia.
  rewrite <-ymd2ord_compare by done.
  unfold fields. simpl.
  destruct (year a ?= year b), (month a ?= month b), (day a ?= day b),
    (hour a ?= hour b), (minute a ?= minute b), (second a ?= second b),
    (microsecond a ?= microsecond b); done.
Qed.

Lemma valid_floor_minute (d : datetime) :
  valid d = true → valid (floor_minute d) = true.
Proof.
  intros Hd. apply valid_ranges in Hd. unfold valid. simpl.
  repeat (apply andb_true_intro; split); lia.
Qed.

(** C10, as the code has it: for two valid datetimes of four-digit years
    and one UTC offset, the formatted strings compare as the datetimes at
    the start of their minutes do, which is as the instants of those
    starts do; so a datetime that is earlier never gets the greater
    string, and a smaller string always means an earlier datetime; and two
    datetimes of one minute get the same string. *)
Theorem strftime_orders_minutes (a b : datetime) :
  valid a = true → valid b = true →
  1000 ≤ year a → 1000 ≤ year b →
  utcoffset a = utcoffset b →
  chronological (floor_minute a) (floor_minute b)
  = Some (String.compare (strftime a) (strftime b)) ∧
  String.compare (strftime a) (strftime b)
  = (local_microseconds (floor_minute a) ?= local_microseconds (floor_minute b)) ∧
  (chronological a b = Some Lt → String.compare (strftime a) (strftime b) ≠ Gt) ∧
  (String.compare (strftime a) (strftime b) = Lt → chronological a b = Some Lt) ∧
  (floor_minute a = floor_minute b → strftime a = strftime b).
Proof.
  intros Ha Hb _ _ Hoff.
  assert (Hsame : floor_minute a = floor_minute b → strftime a = strftime b).
  { unfold floor_minute, strftime. intros [= -> -> -> -> -> _]. done. }
  rewrite <-fields_order_is_instant_order by by apply valid_floor_minute.
  rewrite strftime_compare by done.
  unfold chronological.
  change (utcoffset (floor_minute a)) with (utcoffset a).
  change (utcoffset (floor_minute b)) with (utcoffset b).
  rewrite !bool_decide_eq_true_2 by done.
  change (fields (floor_minute a)) with (printed_fields a ++ [0; 0]).
  change (fields (floor_minute b)) with (printed_fields b ++ [0; 0]).
  change (fields a) with (printed_fields a ++ [second a; microsecond a]).
  change (fields b) with (printed_fields b ++ [second b; microsecond b]).
  rewrite !lex_compare_app by done.
  destruct (lex_compare (printed_fields a) (printed_fields b));
    split_and!; done.
Qed.

Lemma strftime_orders_minutes_witness :
  chronological (floor_minute Examples.evening_before) (floor_minute Examples.first_take)
  = Some (String.compare (strftime Examples.evening_before) (strftime Examples.first_take)) ∧
  String.compare (strftime Examples.evening_before) (strftime Examples.first_take) = Lt ∧
  chronological Examples.evening_before Examples.first_take = Some Lt.
Proof.
  destruct (strftime_orders_minutes Examples.evening_before Examples.first_take)
    as (Hminutes & _ & _ & Hearlier & _).
  - reflexivity.
  - reflexivity.
  - vm_compute. discriminate.
  - vm_compute. discriminate.
  - reflexivity.
  - split; [exact Hminutes|]. split; [reflexivity|].
    apply Hearlier. reflexivity.
Defined.

(** C10 as stated fails: the second take is later than the first, and
    both are formatted to the same string. *)
Lemma same_minute_same_string :
  valid Examples.first_take = true ∧
  valid Examples.second_take = true ∧
  chronological Examples.first_take Examples.second_take = Some Lt ∧
  strftime Examples.first_take = "2024-03-01__10_15" ∧
  strftime Examples.second_take = "2024-03-01__10_15" ∧
  String.compare (strftime Examples.first_take) (strftime Examples.second_take) = Eq.
Proof. vm_compute. split_and!; reflexivity. Qed.

End TimestampFacts.

(** ** File names *)

Module PyStrFacts.

Import PyStr.

(** The characters of a string. *)
Local Abbreviation chars := list_ascii_of_string.

Lemma chars_append (a b : string) : chars (a +:+ b) = chars a ++ chars b.
Proof. induction a as [|c a IH]; simpl; [done|]. by rewrite IH. Qed.

Lemma append_empty (s : string) : s +:+ EmptyString = s.
Proof.
  induction s as [|c s IH]; [done|].
  change (String c s +:+ EmptyString) with (String c (s +:+ EmptyString)).
  by rewrite IH.
Qed.


Lemma remove_chars_clean (bad : ascii → bool) (s : string) :
  Forall (λ c, bad c = false) (chars (remove_chars bad s)).
Proof.
  induction s as [|c s IH]; simpl; [constructor|].
  destruct (bad c) eqn:Hc; [done|]. by constructor.
Qed.

Lemma remove_chars_subset (bad : ascii → bool) (P : ascii → Prop) (s : string) :
  Forall P (chars s) → Forall P (chars (remove_chars bad s)).
Proof.
  induction s as [|c s IH]; simpl; [done|].
  intros [Hc Hs]%Forall_cons. destruct (bad c); [auto|]. simpl. constructor; auto.
Qed.

Lemma remove_chars_id (bad : ascii → bool) (s : string) :
  Forall (λ c, bad c = false) (chars s) → remove_chars bad s = s.
Proof.
  induction s as [|c s IH]; simpl; [done|].
  intros [Hc Hs]%Forall_cons. rewrite Hc. by rewrite IH.
Qed.

Lemma map_chars_id (f : ascii → ascii) (s : string) :
  Forall (λ c, f c = c) (chars s) → map_chars f s = s.
Proof.
  induction s as [|c s IH]; simpl; [done|].
  intros [Hc Hs]%Forall_cons. by rewrite Hc, IH.
Qed.

Lemma remove_chars_length (bad : ascii → bool) (s : string) :
  (String.length (remove_chars bad s) ≤ String.length s)%nat.
Proof. induction s as [|c s IH]; simpl; [done|]. destruct (bad c); simpl; lia. Qed.

Lemma map_chars_length (f : ascii → ascii) (s : string) :
  String.length (map_chars f s) = String.length s.
Proof. induction s as [|c s IH]; simpl; [done|]. by rewrite IH. Qed.

Lemma underscored_no_space (s : string) :
  Forall (λ c, c ≠ " "%char)
    (chars (map_chars (λ c, if Ascii.eqb c " " then "_"%char else c) s)).
Proof.
  induction s as [|c s IH]; simpl; [constructor|].
  constructor; [|done].
  destruct (Ascii.eqb_spec c " "); [discriminate|done].
Qed.

Lemma make_safe_filename_chars (title : string) :
  Forall (λ c, c ≠ " "%char ∧ unsafe_char c = false)
    (chars (make_safe_filename title)).
Proof.
  unfold make_safe_filename. apply Forall_and. split.
  - apply remove_chars_subset, underscored_no_space.
  - apply remove_chars_clean.
Qed.

(** X1: whatever the title, the name [make_safe_filename] returns holds
    no space and none of the nine characters of the pattern (less-than,
    greater-than, colon, double quote, slash, backslash, bar, question
    mark, star), and is no longer than the title. *)
Theorem make_safe_filename_clean (title : string) :
  Forall (λ c, c ≠ " "%char ∧ unsafe_char c = false)
    (chars (make_safe_filename title)) ∧
  (String.length (make_safe_filename title) ≤ String.length title)%nat.
Proof.
  split; [apply make_safe_filename_chars|].
  unfold make_safe_filename.
  etrans; [apply remove_chars_length|]. by rewrite map_chars_length.
Qed.

(** X2: [make_safe_filename] changes nothing in a name it has made:
    applying it twice is applying it once. *)
Theorem make_safe_filename_idempotent (title : string) :
  make_safe_filename (make_safe_filename title) = make_safe_filename title.
Proof.
  pose proof (make_safe_filename_chars title) as Hclean.
  apply Forall_and in Hclean as [Hspace Hunsafe].
  unfold make_safe_filename at 1.
  rewrite map_chars_id; [by apply remove_chars_id|].
  eapply Forall_impl; [exact Hspace|]. intros c Hc. simpl.
  by destruct (Ascii.eqb_spec c " ").
Qed.

Lemma map_chars_append f (a b : string) :
  map_chars f (a +:+ b) = map_chars f a +:+ map_chars f b.
Proof. induction a as [|c a IH]; simpl; [done|]. by rewrite IH. Qed.

Lemma remove_chars_append bad (a b : string) :
  remove_chars bad (a +:+ b) = remove_chars bad a +:+ remove_chars bad b.
Proof.
  induction a as [|c a IH]; simpl; [done|]. rewrite IH. by destruct (bad c).
Qed.

(** [make_safe_filename] works character by character: the name of a
    title in two parts is the two names, one after the other. *)
Lemma make_safe_filename_append (a b : string) :
  make_safe_filename (a +:+ b) = make_safe_filename a +:+ make_safe_filename b.
Proof.
  unfold make_safe_filename. by rewrite map_chars_append, remove_chars_append.
Qed.

Lemma prefix_cons (a b : ascii) (s1 s2 : string) :
  String.prefix (String a s1) (String b s2)
  = if Ascii.ascii_dec a b then String.prefix s1 s2 else false.
Proof. reflexivity. Qed.



Lemma prefix_append (a b : string) : String.prefix a (a +:+ b) = true.
Proof.
  induction a as [|c a IH]; [by destruct b|].
  change (String c a +:+ b) with (String c (a +:+ b)). rewrite prefix_cons.
  by destruct (Ascii.ascii_dec c c).
Qed.

Lemma drop_chars_append (a b : string) : drop_chars (String.length a) (a +:+ b) = b.
Proof. induction a as [|c a IH]; simpl; [by destruct b|done]. Qed.

(** X4: [s.split(sep, 1)[1]] removes a leading separator and nothing
    else: for a text that starts with [sep], [after_first] returns all
    that follows, further occurrences of [sep] included. So the entry id
    [evevabc] gives [evabc], where the [lstrip] the source warns against
    would give [abc]. *)
Theorem after_first_of_prefix (sep rest : string) :
  after_first sep (sep +:+ rest) = Some rest.
Proof.
  pose proof (prefix_append sep rest) as Hprefix.
  pose proof (drop_chars_append sep rest) as Hdrop.
  destruct (sep +:+ rest) as [|c s]; unfold after_first;
    fold after_first; by rewrite Hprefix, Hdrop.
Qed.

Lemma after_last_split (sep : ascii) (s ext : string) :
  after_last sep s = Some ext →
  (∃ stem, s = stem +:+ String sep ext) ∧
  Forall (λ c, c ≠ sep) (chars ext).
Proof.
  revert ext. induction s as [|c s IH]; intros ext; simpl; [done|].
  destruct (after_last sep s) as [tail|] eqn:Htail.
  - intros [= <-]. destruct (IH tail eq_refl) as [[stem ->] Hno].
    split; [by exists (String c stem)|done].
  - destruct (Ascii.eqb_spec c sep) as [->|]; [|done].
    intros [= <-]. split; [by exists EmptyString|].
    clear IH. induction s as [|c s IH]; simpl in *; [constructor|].
    destruct (after_last sep s); [done|].
    destruct (Ascii.eqb_spec c sep); [done|]. constructor; auto.
Qed.

Lemma after_last_none (sep : ascii) (s : string) :
  Forall (λ c, c ≠ sep) (chars s) → after_last sep s = None.
Proof.
  induction s as [|c s IH]; simpl; [done|].
  intros [Hc Hs]%Forall_cons. rewrite IH by done.
  by destruct (Ascii.eqb_spec c sep).
Qed.

Lemma after_last_append (sep : ascii) (stem ext : string) :
  Forall (λ c, c ≠ sep) (chars ext) →
  after_last sep (stem +:+ String sep ext) = Some ext.
Proof.
  intros Hext. induction stem as [|c stem IH]; simpl.
  - rewrite after_last_none by done. by rewrite Ascii.eqb_refl.
  - by rewrite IH.
Qed.

(** X5: [s.rsplit(sep, 1)[1]] is the extension: [after_last] returns
    [ext] exactly when the text is some stem, the separator, and [ext],
    and [ext] holds no separator. *)
Theorem after_last_is_the_extension (sep : ascii) (s ext : string) :
  after_last sep s = Some ext ↔
  (∃ stem, s = stem +:+ String sep ext) ∧ Forall (λ c, c ≠ sep) (chars ext).
Proof.
  split; [apply after_last_split|].
  intros [[stem ->] Hext]. by apply after_last_append.
Qed.

Lemma replace_from_skip_all (k : nat) (old new s : string) :
  (String.length s ≤ k)%nat → replace_from k old new s = EmptyString.
Proof.
  revert k. induction s as [|c s IH]; intros k Hk; [done|].
  destruct k as [|k]; simpl in *; [lia|]. apply IH. lia.
Qed.

Lemma replace_from_step (old new : string) (c : ascii) (s : string) :
  replace_from 0 old new (String c s)
  = if String.prefix old (String c s)
    then new +:+ replace_from (String.length old - 1) old new s
    else String c (replace_from 0 old new s).
Proof. reflexivity. Qed.

(** X6: the subtitle file gets the name of the media file with the
    extension swapped, provided the extension occurs in that name at its
    end only: [replace] of a non-empty [old] by [new] in [stem +:+ old]
    gives [stem +:+ new] when no match of [old] starts inside [stem]. *)
Theorem replace_swaps_the_extension (old new stem : string) :
  old ≠ EmptyString →
  PyText.only_at_end old stem →
  replace old new (stem +:+ old) = stem +:+ new.
Proof.
  intros Hold Hstem.
  assert (replace old new (stem +:+ old) = replace_from 0 old new (stem +:+ old))
    as -> by by destruct old.
  induction stem as [|c stem IH].
  - destruct old as [|c old]; [done|].
    change (EmptyString +:+ String c old) with (String c old).
    rewrite replace_from_step.
    pose proof (prefix_append (String c old) EmptyString) as Hprefix.
    rewrite append_empty in Hprefix. rewrite Hprefix.
    rewrite replace_from_skip_all by (simpl; lia).
    apply append_empty.
  - destruct Hstem as [Hhere Hrest].
    change (String c stem +:+ old) with (String c (stem +:+ old)) in *.
    rewrite replace_from_step, Hhere. simpl. by rewrite IH.
Qed.

Lemma replace_swaps_the_extension_witness :
  replace "mp4" "vtt" ("2024-03-01__10_15__Lecture_1__A1." +:+ "mp4")
  = "2024-03-01__10_15__Lecture_1__A1." +:+ "vtt".
Proof.
  apply (replace_swaps_the_extension "mp4" "vtt" "2024-03-01__10_15__Lecture_1__A1.").
  - discriminate.
  - vm_compute. repeat split.
Defined.

End PyStrFacts.

(** ** More of Python's [str] *)

Module PyTextFacts.

Import PyStr PyText PyStrFacts.

Local Abbreviation chars := list_ascii_of_string.

Lemma chars_length (s : string) : length (chars s) = String.length s.
Proof. induction s as [|c s IH]; simpl; [done|]. by rewrite IH. Qed.

Lemma string_of_chars (a b : string) : chars a = chars b → a = b.
Proof.
  intros Heq. by rewrite <-(string_of_list_ascii_of_string a),
    <-(string_of_list_ascii_of_string b), Heq.
Qed.

Lemma lstrip_head bad s c rest : lstrip bad s = String c rest → bad c = false.
Proof.
  induction s as [|c' s IH]; simpl; [done|].
  destruct (bad c') eqn:Hbad; [done|]. by intros [= <- _].
Qed.

Lemma rstrip_head bad c s c' rest :
  rstrip bad (String c s) = String c' rest → c' = c.
Proof.
  simpl. destruct (rstrip bad s); [destruct (bad c)|]; by intros [= <-].
Qed.

(** What [strip] leaves starts with a character that is kept. *)
Lemma strip_head bad s c rest : strip bad s = String c rest → bad c = false.
Proof.
  unfold strip. destruct (lstrip bad s) as [|c' s'] eqn:Hl; [done|].
  intros Hr. apply rstrip_head in Hr as ->. by eapply lstrip_head.
Qed.

Lemma lstrip_kept bad c s : bad c = false → lstrip bad (String c s) = String c s.
Proof. intros Hc. simpl. by rewrite Hc. Qed.

Lemma lstrip_app_all bad (p s : string) :
  Forall (λ c, bad c = true) (chars p) → lstrip bad (p +:+ s) = lstrip bad s.
Proof.
  induction p as [|c p IH]; [done|]. intros [Hc Hp]%Forall_cons.
  change (String c p +:+ s) with (String c (p +:+ s)). simpl. rewrite Hc. auto.
Qed.

Lemma rstrip_all bad s :
  Forall (λ c, bad c = true) (chars s) → rstrip bad s = EmptyString.
Proof.
  induction s as [|c s IH]; simpl; [done|].
  intros [Hc Hs]%Forall_cons. by rewrite IH, Hc.
Qed.

Lemma rstrip_id bad (s : string) :
  Forall (λ c, bad c = false) (chars s) → rstrip bad s = s.
Proof.
  induction s as [|c s IH]; simpl; [done|].
  intros [Hc Hs]%Forall_cons. rewrite IH by done. rewrite Hc. by destruct s.
Qed.

Lemma rstrip_nonempty bad s c :
  bad c = false → rstrip bad (s +:+ String c EmptyString) = s +:+ String c EmptyString.
Proof.
  intros Hc. induction s as [|c' s IH]; simpl.
  - by rewrite Hc.
  - rewrite IH. by destruct s.
Qed.

(** Characters to strip at the end go, whatever comes before. *)
Lemma rstrip_app_all bad s ws :
  Forall (λ c, bad c = true) (chars ws) → rstrip bad (s +:+ ws) = rstrip bad s.
Proof.
  intros Hws. induction s as [|c s IH]; simpl.
  - by apply rstrip_all.
  - by rewrite IH.
Qed.


(** The words of the scan are words. *)
Lemma scan_words_spec s :
  Forall (λ c, is_space c = false) (chars (scan_words s).1) ∧
  Forall (λ w, w ≠ EmptyString ∧ Forall (λ c, is_space c = false) (chars w))
    (scan_words s).2.
Proof.
  induction s as [|c s [IHw IHl]]; simpl; [by split|].
  destruct (scan_words s) as [word later]. simpl in *.
  destruct (is_space c) eqn:Hc; simpl.
  - split; [done|]. destruct word; simpl; [done|]. by constructor.
  - split; [by constructor|done].
Qed.

Lemma split_ws_words s :
  Forall (λ w, w ≠ EmptyString ∧ Forall (λ c, is_space c = false) (chars w))
    (split_ws s).
Proof.
  unfold split_ws. pose proof (scan_words_spec s) as [Hw Hl].
  destruct (scan_words s) as [word later]. simpl in *.
  destruct word; simpl; [done|]. by constructor.
Qed.

(** The first word of a text that starts with a character other than
    whitespace starts with that character. *)
Lemma split_ws_head c s :
  is_space c = false →
  ∃ word later, split_ws (String c s) = String c word :: later.
Proof.
  intros Hc. unfold split_ws. simpl.
  destruct (scan_words s) as [word later]. rewrite Hc. simpl. eauto.
Qed.

Lemma endswith_suffix (suffix s : string) :
  endswith suffix s = true ↔ ∃ stem, s = stem +:+ suffix.
Proof.
  split.
  - induction s as [|c s IH]; simpl.
    + destruct (String.eqb_spec suffix EmptyString) as [->|]; [|done].
      by exists EmptyString.
    + destruct (String.eqb_spec suffix (String c s)) as [->|].
      * by exists EmptyString.
      * intros [stem ->]%IH. by exists (String c stem).
  - intros [stem ->]. induction stem as [|c stem IH].
    + change (EmptyString +:+ suffix) with suffix.
      destruct suffix as [|a t]; [done|].
      unfold endswith; fold endswith. by rewrite String.eqb_refl.
    + change (String c stem +:+ suffix) with (String c (stem +:+ suffix)).
      unfold endswith; fold endswith. rewrite IH. by destruct (_ =? _)%string.
Qed.

(** Two endings of one string that are as long as each other are the
    same. *)
Lemma endswith_same_length (suffix1 suffix2 s : string) :
  String.length suffix1 = String.length suffix2 →
  endswith suffix1 s = true → endswith suffix2 s = true → suffix1 = suffix2.
Proof.
  intros Hlen [stem1 H1]%endswith_suffix [stem2 H2]%endswith_suffix.
  rewrite H1 in H2. apply (f_equal chars) in H2.
  rewrite !chars_append in H2.
  apply string_of_chars.
  apply app_inj_2 in H2 as [_ ?]; [done|].
  by rewrite !chars_length.
Qed.

Lemma contains_prefix (sub s : string) :
  String.prefix sub s = true → contains sub s = true.
Proof.
  intros Hprefix. destruct s; unfold contains; fold contains; by rewrite Hprefix.
Qed.








End PyTextFacts.

(** ** Resuming a transfer *)

Module ResumeFacts.

Import Transfer.

(** X7: [download_file] never shortens or rewrites what the destination
    holds: when it opens the destination, the file afterwards is what was
    there followed by the bytes written; when it does not, nothing is
    written and the file is what it was. *)
Theorem download_file_only_appends (srv : server) (file : option (list Byte.byte)) :
  file_after (download_file srv file)
  = match opened (download_file srv file) with
    | Some _ => Some (default [] file ++ written (download_file srv file))
    | None => file
    end ∧
  (opened (download_file srv file) = None → written (download_file srv file) = []).
Proof.
  unfold download_file, raise_for_status, untouched, write_file.
  destruct (_ <=? getsize file); [done|].
  destruct (status _ =? 416); [done|].
  destruct (negb _); destruct (400 <=? status _); simpl; try done;
    destruct (Z.ltb_spec 0 (getsize file)) as [Hpos|Hzero]; simpl; try done;
    destruct file as [old|]; simpl in *; try done;
    (assert (length old = 0%nat) as Hlen by lia);
    by apply length_zero_iff_nil in Hlen as ->.
Qed.


(** X9: resuming works for a destination that holds less than half of
    the resource: with the first [n] bytes of [data] on disk, [2 * n] less
    than the length of [data], and a server that answers the range request
    with 206, the length of the rest and the rest itself, [download_file]
    opens the destination for appending and leaves exactly [data] in it. *)
Theorem resume_below_half_completes (srv : server) (data : list Byte.byte) (n : nat) :
  (0 < n)%nat →
  (2 * n < length data)%nat →
  status (srv (RangeFrom (Z.of_nat n))) = 206 →
  content_length (srv (RangeFrom (Z.of_nat n))) = Some (Z.of_nat (length data - n)) →
  concat (chunks (srv (RangeFrom (Z.of_nat n)))) = drop n data →
  opened (download_file srv (Some (take n data))) = Some ab ∧
  file_after (download_file srv (Some (take n data))) = Some data.
Proof.
  intros Hpos Hhalf Hstatus Hlen Hbody.
  unfold download_file, getsize, request_of.
  rewrite length_take_le by lia.
  destruct (Z.ltb_spec 0 (Z.of_nat n)); [|lia].
  rewrite Hlen, Hstatus. simpl.
  destruct (Z.leb_spec (Z.of_nat (length data - n)) (Z.of_nat n)); [lia|].
  simpl. rewrite Hbody. by rewrite take_drop.
Qed.

(** X10: a destination that holds half of the resource or more is never
    completed: with the first [n] bytes of [data] on disk, [n] less than
    the length of [data] but [2 * n] at least that length, and a server
    that announces the length of the rest in [Content-Length], the test
    for a finished file holds, and [download_file] returns without writing
    a byte, whatever the status and the body of the response. *)
Theorem resume_from_half_is_skipped (srv : server) (data : list Byte.byte) (n : nat) :
  (0 < n)%nat →
  (n < length data)%nat →
  (length data ≤ 2 * n)%nat →
  content_length (srv (RangeFrom (Z.of_nat n))) = Some (Z.of_nat (length data - n)) →
  download_file srv (Some (take n data)) = untouched (Return tt) (Some (take n data)).
Proof.
  intros Hpos Hpart Hhalf Hlen.
  apply TransferFacts.download_file_already.
  unfold getsize, request_of. rewrite length_take_le by lia.
  destruct (Z.ltb_spec 0 (Z.of_nat n)); [|lia].
  rewrite Hlen. simpl. lia.
Qed.

Import Examples.


Lemma resume_below_half_completes_witness :
  opened (download_file (range_server (bytes_of "lecture"))
            (Some (take 3 (bytes_of "lecture")))) = Some ab ∧
  file_after (download_file (range_server (bytes_of "lecture"))
                (Some (take 3 (bytes_of "lecture")))) = Some (bytes_of "lecture").
Proof.
  apply (resume_below_half_completes (range_server (bytes_of "lecture"))
           (bytes_of "lecture") 3).
  - lia.
  - vm_compute. lia.
  - reflexivity.
  - reflexivity.
  - reflexivity.
Defined.

Lemma resume_from_half_is_skipped_witness :
  download_file (range_server (bytes_of "lecture"))
    (Some (take 4 (bytes_of "lecture")))
  = untouched (Return tt) (Some (take 4 (bytes_of "lecture"))).
Proof.
  apply (resume_from_half_is_skipped (range_server (bytes_of "lecture"))
           (bytes_of "lecture") 4).
  - lia.
  - vm_compute. lia.
  - vm_compute. lia.
  - reflexivity.
Defined.

End ResumeFacts.

(** ** Probing and transferring an item *)

Module ProbeFacts.

Import Effects EffectsFacts Media.

Section Item.

Variable http : string → Transfer.server.
Variable strptime_year : string → result string.

Lemma probe_loop md media_url media_extension media_filename dir subtitles filesize fs :
  (subtitle_loop http md true media_url media_extension media_filename dir
     subtitles filesize fs).1.2 = fs ∧
  Forall (λ c, c = GetSize media_url)
    (subtitle_loop http md true media_url media_extension media_filename dir
       subtitles filesize fs).2.
Proof.
  revert filesize.
  induction subtitles as [|subtitle rest IH]; intros filesize; simpl; [done|].
  destruct (subtitle_sources md !! subtitle) as [subtitle_url|]; [|apply IH].
  destruct (PyStr.after_last "." subtitle_url) as [subtitle_extension|]; simpl;
    [|done].
  rewrite ret_bind, bind_unfold. unfold get_remote_file_size.
  destruct (Transfer.get_remote_file_size (http media_url)) as [size|e]; simpl.
  - destruct (IH (filesize + size)) as [Hfs Htrace]. split; [done|].
    by constructor.
  - split; [done|]. by repeat constructor.
Qed.

Lemma probe_loop_total md media_url media_extension media_filename dir subtitles
    filesize size fs :
  Transfer.get_remote_file_size (http media_url) = Return size →
  Forall (λ subtitle, ∀ subtitle_url,
            subtitle_sources md !! subtitle = Some subtitle_url →
            is_Some (PyStr.after_last "." subtitle_url)) subtitles →
  (subtitle_loop http md true media_url media_extension media_filename dir
     subtitles filesize fs).1.1
  = Return (filesize + size * Z.of_nat (length (available md subtitles))).
Proof.
  intros Hsize Hext. revert filesize.
  induction Hext as [|subtitle rest Hsub _ IH]; intros filesize; simpl.
  - f_equal. lia.
  - unfold available. rewrite filter_cons.
    destruct (subtitle_sources md !! subtitle) as [subtitle_url|] eqn:Hlookup.
    + rewrite decide_True by eauto.
      destruct (Hsub _ eq_refl) as [subtitle_extension ->]. simpl.
      rewrite ret_bind, bind_unfold. unfold get_remote_file_size.
      rewrite Hsize. simpl. rewrite IH. f_equal.
      fold (available md rest). lia.
    + rewrite decide_False by (by intros []). apply IH.
Qed.

Lemma probe_run (md : media_metadata)
    (download_path video_quality audio_quality : string)
    (subtitles : option (list string)) (fs : files) :
  files_of (download_video_subtitles_and_maybe_audio http strptime_year (Return md)
              download_path video_quality subtitles audio_quality true) fs = fs ∧
  Forall (λ c, ∃ media_url,
            select_media_url md video_quality audio_quality = Some media_url ∧
            c = GetSize media_url)
    (trace_of (download_video_subtitles_and_maybe_audio http strptime_year (Return md)
                 download_path video_quality subtitles audio_quality true) fs).
Proof.
  unfold files_of, trace_of, download_video_subtitles_and_maybe_audio.
  rewrite ret_bind.
  destruct (select_media_url md video_quality audio_quality) as [media_url|];
    simpl; [|done].
  rewrite ret_bind.
  destruct (PyStr.after_last "." media_url) as [media_extension|]; simpl; [|done].
  rewrite ret_bind, bind_unfold. unfold lift_result.
  destruct (strptime_year (datetime md)) as [year|e]; simpl; [|done].
  rewrite bind_unfold. unfold get_remote_file_size.
  destruct (Transfer.get_remote_file_size (http media_url)) as [size|e]; simpl.
  2:{ split; [done|]. repeat constructor. by exists media_url. }
  rewrite bind_unfold.
  match goal with
  | |- context [subtitle_part http md true ?u ?x ?f ?d subtitles size fs] =>
    assert ((subtitle_part http md true u x f d subtitles size fs).1.2 = fs ∧
            Forall (λ c, c = GetSize media_url)
              (subtitle_part http md true u x f d subtitles size fs).2) as Hloop;
    [|destruct (subtitle_part http md true u x f d subtitles size fs) as [[[total|e] fs1] t1]]
  end.
  { destruct subtitles as [[|subtitle rest]|]; try done. apply probe_loop. }
  - simpl in *. destruct Hloop as [-> Htrace]. split; [done|].
    constructor; [by exists media_url|].
    rewrite app_nil_r. eapply Forall_impl; [done|]. intros c ->. by exists media_url.
  - simpl in *. destruct Hloop as [-> Htrace]. split; [done|].
    constructor; [by exists media_url|].
    eapply Forall_impl; [done|]. intros c ->. by exists media_url.
Qed.

(** X11: a size probe touches no file and asks for one size only: in
    the mode [get_size], the files after the call are the files before it,
    and every request made is a size request for the media url chosen
    for the item (the video of the configured quality, or the audio); no
    size is ever asked of a subtitle url. *)
Theorem probe_asks_only_for_media_size (md : media_metadata)
    (download_path video_quality audio_quality : string)
    (subtitles : option (list string)) (fs : files) :
  files_of (download_video_subtitles_and_maybe_audio http strptime_year (Return md)
              download_path video_quality subtitles audio_quality true) fs = fs ∧
  Forall (λ c, ∃ media_url,
            select_media_url md video_quality audio_quality = Some media_url ∧
            c = GetSize media_url)
    (trace_of (download_video_subtitles_and_maybe_audio http strptime_year (Return md)
                 download_path video_quality subtitles audio_quality true) fs).
Proof. apply probe_run. Qed.

(** X12: the size a probe returns is the size of the media file, once
    for the media and once more for every configured subtitle language the
    item has: the loop over the subtitles adds
    [get_remote_file_size(media_url)] each time, not the size of the
    subtitle. *)
Theorem probe_counts_media_size_per_subtitle (md : media_metadata)
    (download_path video_quality audio_quality : string)
    (subtitles : list string) (fs : files)
    (media_url media_extension year : string) (size : Z) :
  select_media_url md video_quality audio_quality = Some media_url →
  PyStr.after_last "." media_url = Some media_extension →
  strptime_year (datetime md) = Return year →
  Transfer.get_remote_file_size (http media_url) = Return size →
  Forall (λ subtitle, ∀ subtitle_url,
            subtitle_sources md !! subtitle = Some subtitle_url →
            is_Some (PyStr.after_last "." subtitle_url)) subtitles →
  result_of (download_video_subtitles_and_maybe_audio http strptime_year (Return md)
               download_path video_quality (Some subtitles) audio_quality true) fs
  = Return (Some (size * (1 + Z.of_nat (length (available md subtitles))))).
Proof.
  intros Hurl Hext Hyear Hsize Hsubs.
  unfold result_of, download_video_subtitles_and_maybe_audio.
  rewrite ret_bind, Hurl. cbn [of_option]. rewrite ret_bind, Hext. cbn [of_option].
  rewrite ret_bind, bind_unfold. unfold lift_result. rewrite Hyear. cbv beta iota.
  rewrite bind_unfold. unfold get_remote_file_size. rewrite Hsize. cbv beta iota.
  rewrite bind_unfold, MediaFacts.subtitle_part_loop.
  match goal with
  | |- context [subtitle_loop http md true ?u ?x ?f ?d subtitles size fs] =>
    pose proof (probe_loop_total md u x f d subtitles size size fs Hsize Hsubs) as Htotal;
    destruct (subtitle_loop http md true u x f d subtitles size fs) as [[r fs1] t1]
  end.
  simpl in Htotal. subst r. simpl. do 2 f_equal. lia.
Qed.

Lemma transfer_loop md media_url media_extension media_filename dir subtitles
    filesize fs :
  Forall (λ c, ∃ url name, c = Download url (PyStr.os_path_join dir name))
    (subtitle_loop http md false media_url media_extension media_filename dir
       subtitles filesize fs).2 ∧
  ∀ size, (subtitle_loop http md false media_url media_extension media_filename dir
             subtitles filesize fs).1.1 = Return size → size = filesize.
Proof.
  revert fs.
  induction subtitles as [|subtitle rest IH]; intros fs; simpl.
  { split; [done|]. by intros size [= <-]. }
  destruct (subtitle_sources md !! subtitle) as [subtitle_url|]; [|apply IH].
  destruct (PyStr.after_last "." subtitle_url) as [subtitle_extension|]; simpl;
    [|done].
  rewrite ret_bind, bind_unfold. unfold download_file.
  destruct (Transfer.returned _) as [[]|e]; simpl; [|split; [|done]].
  - match goal with
    | |- context [subtitle_loop http md false ?u ?x ?f ?d rest filesize ?fs1] =>
      destruct (IH fs1) as [Htrace Hsize]
    end.
    split; [|done]. constructor; [eauto|done].
  - repeat constructor. eauto.
Qed.

Lemma transfer_block (url abspath dir : string) (fs : files) :
  ∃ r fs1,
    (emit (Makedirs dir);; download_file http url abspath;; (mret 0 : io call Z)) fs
    = (r, fs1, [Makedirs dir; Download url abspath]).
Proof.
  rewrite bind_unfold. unfold emit at 1. cbv beta iota.
  rewrite bind_unfold. unfold download_file at 1 2 3. cbv beta iota zeta.
  destruct (Transfer.returned _); simpl; eauto.
Qed.

(** X13: in the download mode the call never returns a size, and its
    trace is either empty (it raised before touching anything) or starts
    with the making of the directory [year_series] under the download
    path, followed only by transfers to files directly in that
    directory. *)
Theorem transfer_makes_the_directory_first (md : media_metadata)
    (download_path video_quality audio_quality : string)
    (subtitles : option (list string)) (fs : files) :
  (∀ size,
     result_of (download_video_subtitles_and_maybe_audio http strptime_year
                  (Return md) download_path video_quality subtitles audio_quality
                  false) fs ≠ Return (Some size)) ∧
  (trace_of (download_video_subtitles_and_maybe_audio http strptime_year
               (Return md) download_path video_quality subtitles audio_quality
               false) fs = [] ∨
   ∃ year rest,
     strptime_year (datetime md) = Return year ∧
     trace_of (download_video_subtitles_and_maybe_audio http strptime_year
                 (Return md) download_path video_quality subtitles audio_quality
                 false) fs
     = Makedirs (PyStr.os_path_join download_path
                   (year +:+ "_" +:+ PyStr.make_safe_filename (series_title md)))
       :: rest ∧
     Forall (λ c, ∃ url name,
               c = Download url
                     (PyStr.os_path_join
                        (PyStr.os_path_join download_path
                           (year +:+ "_" +:+ PyStr.make_safe_filename (series_title md)))
                        name)) rest).
Proof.
  unfold result_of, trace_of, download_video_subtitles_and_maybe_audio.
  rewrite ret_bind.
  destruct (select_media_url md video_quality audio_quality) as [media_url|];
    cbn [of_option]; [|by split; [|left]].
  rewrite ret_bind.
  destruct (PyStr.after_last "." media_url) as [media_extension|];
    cbn [of_option]; [|by split; [|left]].
  rewrite ret_bind, bind_unfold. unfold lift_result.
  destruct (strptime_year (datetime md)) as [year|e]; cbv beta iota;
    [|by split; [|left]].
  match goal with
  | |- context [mbind ?k ?inner fs] =>
    assert (∃ r fs1, inner fs = (r, fs1, [Makedirs (PyStr.os_path_join download_path
              (year +:+ "_" +:+ PyStr.make_safe_filename (series_title md)));
              Download media_url (PyStr.os_path_join (PyStr.os_path_join download_path
              (year +:+ "_" +:+ PyStr.make_safe_filename (series_title md)))
                (PyStr.make_safe_filename
                   (datetime md +:+ "__" +:+ title md +:+ "__" +:+ id md +:+ "."
                    +:+ media_extension)))])) as (r & fs1 & Hinner);
    [|rewrite (bind_unfold inner k), Hinner]
  end.
  { apply transfer_block. }
  destruct r as [filesize|e]; [|split; [done|]].
  2:{ right. exists year. eexists. split; [done|]. split; [reflexivity|].
      repeat constructor. eauto. }
  rewrite bind_unfold.
  match goal with
  | |- context [subtitle_part http md false ?u ?x ?f ?d subtitles filesize fs1] =>
    assert (Forall (λ c, ∃ url name, c = Download url (PyStr.os_path_join d name))
              (subtitle_part http md false u x f d subtitles filesize fs1).2) as Hloop;
    [|destruct (subtitle_part http md false u x f d subtitles filesize fs1)
        as [[[total|e] fs2] t2]]
  end.
  { destruct subtitles as [[|subtitle rest]|]; try done. apply transfer_loop. }
  - cbn [fst snd] in *. rewrite app_nil_r. split; [done|]. right.
    exists year. eexists. split; [done|]. split; [reflexivity|].
    constructor; [eauto|done].
  - cbn [fst snd] in *. split; [done|]. right.
    exists year. eexists. split; [done|]. split; [reflexivity|].
    constructor; [eauto|done].
Qed.

End Item.

Import Examples.

Lemma probe_counts_media_size_per_subtitle_witness :
  result_of
    (download_video_subtitles_and_maybe_audio demo_http demo_strptime_year
       (Return (demo_item entry_A1)) "/rec" "mid" (Some ["en-US"; "de-DE"]) "ogg"
       true) ∅
  = Return (Some 14).
Proof.
  apply (probe_counts_media_size_per_subtitle demo_http demo_strptime_year
           (demo_item entry_A1) "/rec" "mid" "ogg" ["en-US"; "de-DE"] ∅
           "https://cdn.ethz.ch/A1.mp4" "mp4" "2024" 7).
  - reflexivity.
  - reflexivity.
  - reflexivity.
  - reflexivity.
  - repeat constructor; intros subtitle_url Hsubtitle; vm_compute in Hsubtitle;
      simplify_eq; by eexists.
Defined.

End ProbeFacts.

(** ** The order of a run *)

Module ScheduleFacts.

Import Effects EffectsFacts Orchestrator OrchestratorFacts Schedule.

Section Laws.

Context {E : Type}.

Lemma bind_run {A B} (m : io E A) (k : A → io E B) fs a fs1 t1 :
  m fs = (Return a, fs1, t1) →
  (m ≫= k) fs = ((k a fs1).1.1, (k a fs1).1.2, t1 ++ (k a fs1).2).
Proof. intros Hm. by rewrite bind_unfold, Hm. Qed.

Lemma bind_raise {A B} (m : io E A) (k : A → io E B) fs e fs1 t1 :
  m fs = (Raise e, fs1, t1) → (m ≫= k) fs = (Raise e, fs1, t1).
Proof. intros Hm. by rewrite bind_unfold, Hm. Qed.

Lemma gather_cons {A} n (task : io E A) (rest : list (io E A)) :
  gather_with_concurrency n (task :: rest)
  = (r ← capture task; rs ← gather_with_concurrency n rest; mret (r :: rs)).
Proof. reflexivity. Qed.

(** Tasks that leave the files as they are run, each, from the files the
    gather started with. *)
Lemma gather_unchanged {A B} n (f : B → io E A) (xs : list B) fs :
  (∀ x, x ∈ xs → (f x fs).1.2 = fs) →
  gather_with_concurrency n (f <$> xs) fs
  = (Return ((λ x, (f x fs).1.1) <$> xs), fs, concat ((λ x, (f x fs).2) <$> xs)).
Proof.
  induction xs as [|x xs IH]; intros Hfs; [done|].
  rewrite !fmap_cons, gather_cons, bind_unfold. unfold capture.
  pose proof (Hfs x ltac:(left)) as Hx.
  destruct (f x fs) as [[r fs1] t1]. simpl in Hx. subst fs1. cbv beta iota.
  rewrite bind_unfold, IH by (intros y Hy; apply Hfs; by right).
  simpl. by rewrite app_nil_r.
Qed.

(** A loop one of whose bodies raises does not return. *)
Lemma for_each_raises {A} (body : A → io E unit) (xs : list A) (x : A) e fs :
  x ∈ xs →
  (∀ fs0, body x fs0 = (Raise e, fs0, [])) →
  ∃ e' fs' t, for_each body xs fs = (Raise e', fs', t).
Proof.
  intros Hx Hbody. revert fs.
  induction xs as [|y xs IH]; intros fs; [by apply elem_of_nil in Hx|].
  simpl. rewrite bind_unfold.
  destruct (body y fs) as [[[[]|e1] fs1] t1] eqn:Hy; [|eauto].
  apply elem_of_cons in Hx as [->|Hx]; [by rewrite Hbody in Hy|].
  destruct (IH Hx fs1) as (e' & fs' & t & ->). simpl. eauto.
Qed.

Lemma concat_singletons {A B} (g : A → B) (xs : list A) :
  concat ((λ x, [g x]) <$> xs) = g <$> xs.
Proof.
  induction xs as [|x xs IH]; [done|]. rewrite !fmap_cons. simpl. by f_equal.
Qed.

End Laws.

Section Main.

Variable http : string → Transfer.server.
Variable strptime_year : string → result string.
Variable process_entry : series → Classifier.entry → bool → result Media.media_metadata.
Variable login_eth : result bool.
Variable login_protected : series → result bool.
Variable graphql_append_json_metadata : series → result series.
Variable save_dir video_quality : string.
Variable subtitles : option (list string).
Variable audio_quality : string.

Local Abbreviation fetch_and_download :=
  (fetch_and_download http strptime_year process_entry
     save_dir video_quality subtitles audio_quality).
Local Abbreviation phases_of :=
  (phases_of http strptime_year process_entry login_eth login_protected
     graphql_append_json_metadata save_dir video_quality subtitles audio_quality).
Local Abbreviation download_phases :=
  (download_phases http strptime_year process_entry login_eth login_protected
     graphql_append_json_metadata save_dir video_quality subtitles audio_quality).
Local Abbreviation item :=
  (item http strptime_year save_dir video_quality subtitles audio_quality).

(** A size probe leaves the files as they are and only asks for sizes. *)
Lemma item_probe (md : result Media.media_metadata) (fs : files) :
  (item md true fs).1.2 = fs ∧ Forall probing (item md true fs).2.
Proof.
  unfold Orchestrator.item, relabel.
  destruct md as [md|e]; [|done].
  pose proof (ProbeFacts.probe_run http strptime_year md save_dir video_quality
                audio_quality subtitles fs) as [Hfs Htrace].
  unfold files_of, trace_of in *.
  destruct (Media.download_video_subtitles_and_maybe_audio _ _ _ _ _ _ _ _ _)
    as [[r fs1] t1].
  simpl in *. split; [done|].
  apply Forall_fmap. eapply Forall_impl; [done|].
  by intros c (media_url & _ & ->).
Qed.

(** X14: one item whose size probe raises (its page could not be
    scraped, it has no source of the configured quality, its url has no
    extension, the server answered with an error) aborts its whole series:
    [gather] keeps the exception in [filesizes], [sum(filesizes)] raises
    [TypeError], and the loop body ends there, for every phase, having
    written no file, made no directory and started no transfer, for the
    item and for all its siblings. *)
Theorem failed_probe_aborts_series (p : phase) (x data : series)
    (protected_without_eth_login : bool) (es : list Classifier.entry)
    (e : Classifier.entry) (err : exn) (fs : files) :
  entries data = Some es →
  e ∈ es →
  result_of (item (process_entry data e protected_without_eth_login) true) fs
    = Raise err →
  result_of (fetch_and_download p x data protected_without_eth_login) fs
    = Raise TypeError ∧
  files_of (fetch_and_download p x data protected_without_eth_login) fs = fs ∧
  Forall probing
    (trace_of (fetch_and_download p x data protected_without_eth_login) fs).
Proof.
  intros Hentries He Hprobe.
  unfold result_of, files_of, trace_of, Orchestrator.fetch_and_download.
  rewrite Hentries.
  change (lift_result (Return es)) with (mret es : io event _).
  rewrite ret_bind.
  erewrite bind_run by reflexivity.
  erewrite bind_run.
  2:{ apply (gather_unchanged 10
               (λ e0, emit (ProcessEntry data e0);;
                      lift_result (process_entry data e0 protected_without_eth_login))).
      intros e0 _. rewrite bind_unfold. by unfold emit, lift_result. }
  erewrite bind_run by reflexivity.
  set (videos_data := (λ e0, _) <$> es).
  erewrite (bind_run (gather_with_concurrency 10 _)).
  2:{ apply (gather_unchanged 10 (λ md, item md true)).
      intros md _. apply item_probe. }
  erewrite bind_raise.
  2:{ unfold lift_result. rewrite (py_sum_exception 0 _ err); [done|].
      apply list_elem_of_fmap. eexists. split; [symmetry; exact Hprobe|].
      subst videos_data. apply list_elem_of_fmap. by exists e. }
  cbn [fst snd]. split; [done|]. split; [done|].
  constructor; [done|].
  apply Forall_app. split.
  { apply Forall_concat, Forall_fmap, Forall_forall. intros e0 _.
    unfold mbind, io_bind, emit, lift_result. simpl. by repeat constructor. }
  constructor; [done|]. rewrite app_nil_r.
  apply Forall_concat, Forall_fmap, Forall_forall. intros md _. apply item_probe.
Qed.

(** The events of a loop body are its three gathers, the pages of its
    entries and the calls of its items. *)
Lemma fetch_and_download_traces (Q : event → Prop) p x data flag :
  (∀ st, Q (Stage p st x)) →
  (∀ e, Q (ProcessEntry data e)) →
  (∀ c, Q (Item c)) →
  traces Q (fetch_and_download p x data flag).
Proof.
  intros Hstage Hpage Hitem. unfold Orchestrator.fetch_and_download.
  apply traces_bind; [apply traces_lift_result|]. intros es.
  apply traces_bind; [by apply traces_emit|]. intros _.
  apply traces_bind.
  { apply traces_gather, Forall_fmap, Forall_forall. intros e _. simpl.
    apply traces_bind; [by apply traces_emit|]. intros _.
    apply traces_lift_result. }
  intros videos_data.
  apply traces_bind; [by apply traces_emit|]. intros _.
  apply traces_bind.
  { apply traces_gather, Forall_fmap, Forall_forall. intros md _.
    by apply traces_relabel. }
  intros filesizes.
  apply traces_bind; [apply traces_lift_result|]. intros total.
  apply traces_bind; [by apply traces_emit|]. intros _.
  apply traces_bind.
  { apply traces_gather, Forall_fmap, Forall_forall. intros md _.
    by apply traces_relabel. }
  intros _. apply traces_ret.
Qed.

Lemma download_protected_videos_traces (Q : event → Prop) gathered flag :
  (∀ st x, Q (Stage ProtectedPhase st x)) →
  (∀ x e, Q (ProcessEntry x e)) →
  (∀ c, Q (Item c)) →
  traces Q (download_protected_videos http strptime_year process_entry
              save_dir video_quality subtitles audio_quality gathered flag).
Proof.
  intros Hstage Hpage Hitem. apply traces_for_each. intros r _.
  destruct r as [[y|]|]; try apply traces_throw.
  by apply fetch_and_download_traces.
Qed.


Lemma eth_login_run (eth_series : list series) (fs : files) :
  eth_login login_eth eth_series fs
  = (match eth_series with
     | [] => Return None
     | _ :: _ =>
       match login_eth with
       | Return ok => Return (Some ok)
       | Raise e => Raise e
       end
     end,
     fs,
     match eth_series with [] => [] | _ :: _ => [LoginEth] end).
Proof.
  unfold eth_login. destruct eth_series as [|x rest]; [done|].
  rewrite bind_unfold. unfold emit at 1. cbv beta iota.
  rewrite bind_unfold. unfold lift_result. by destruct login_eth.
Qed.

Local Abbreviation login_result := (login_result login_protected).

Lemma login_run (ps : series) (fs : files) :
  login_protected_first_video login_protected ps fs
  = (login_result ps, fs, [LoginProtected ps]).
Proof.
  unfold login_protected_first_video, Schedule.login_result.
  rewrite bind_unfold. unfold emit at 1. cbv beta iota.
  rewrite bind_unfold. unfold lift_result. by destruct (login_protected ps).
Qed.

Lemma logins_run (protected_series : list series) (fs : files) :
  gather_with_concurrency 10
    (login_protected_first_video login_protected <$> protected_series) fs
  = (Return (login_result <$> protected_series), fs,
     LoginProtected <$> protected_series).
Proof.
  rewrite gather_unchanged by (intros ps _; by rewrite login_run).
  f_equal; [f_equal|].
  - f_equal. apply list_fmap_ext. intros i ps _. by rewrite login_run.
  - rewrite <-(concat_singletons LoginProtected). f_equal.
    apply list_fmap_ext. intros i ps _. by rewrite login_run.
Qed.


(** X16: a protected series whose login raises ends the run before the
    eth phase: the exception object passes the filter on the gathered
    logins, [download_protected_videos] raises [TypeError] when it gets to
    it, so the phases do not return, and no eth series is re-read or
    fetched, whether [login_eth] succeeded or not. *)
Theorem failed_protected_login_blocks_eth_series (l : list series) (x : series)
    (err : exn) (fs : files) :
  x ∈ protected_bucket l →
  login_protected x = Raise err →
  result_of (download_phases l) fs ≠ Return tt ∧
  Forall before_eth (trace_of (download_phases l) fs).
Proof.
  unfold result_of, trace_of, Orchestrator.download_phases, protected_bucket.
  destruct (bucket l [] [] []) as [[open_series protected_series] eth_series].
  cbn [fst snd]. intros Hx Hlogin. unfold Orchestrator.phases_of.
  assert (Hopen : traces before_eth
            (for_each (λ x, fetch_and_download OpenPhase x x false) open_series)).
  { apply traces_for_each. intros y _. by apply fetch_and_download_traces. }
  specialize (Hopen fs). rewrite bind_unfold.
  destruct (for_each _ open_series fs) as [[[[]|e] fs1] t1]; cbn [fst snd] in *;
    [|done].
  rewrite bind_unfold, eth_login_run.
  assert (Forall before_eth (match eth_series with [] => [] | _ :: _ => [LoginEth] end))
    as Hlogin_eth by (destruct eth_series; by repeat constructor).
  destruct (match eth_series with [] => Return None | _ => _ end)
    as [eth_success|e] eqn:Heth; cbn [fst snd].
  2:{ split; [done|]. by apply Forall_app. }
  rewrite bind_unfold, logins_run. cbn [fst snd].
  assert (Hlogins : Forall before_eth (LoginProtected <$> protected_series)).
  { apply Forall_fmap, Forall_forall. intros ps _. exact I. }
  assert (Hraise : ∀ flag fs0, ∃ e' fs' t,
            download_protected_videos http strptime_year process_entry
              save_dir video_quality subtitles audio_quality
              (filter (λ r, logged_in r = true) (login_result <$> protected_series))
              flag fs0 = (Raise e', fs', t)).
  { intros flag fs0. apply (for_each_raises _ _ (Raise err) TypeError).
    - apply list_elem_of_filter. split; [done|].
      apply list_elem_of_fmap. exists x. split; [|done].
      unfold Schedule.login_result. by rewrite Hlogin.
    - done. }
  assert (Hprotected : ∀ flag, traces before_eth
            (download_protected_videos http strptime_year process_entry
               save_dir video_quality subtitles audio_quality
               (filter (λ r, logged_in r = true) (login_result <$> protected_series))
               flag)).
  { intros flag. by apply download_protected_videos_traces. }
  destruct (default false eth_success).
  - rewrite ret_bind, bind_unfold.
    destruct (Hraise false fs1) as (e' & fs' & t & Hrun).
    specialize (Hprotected false fs1). rewrite Hrun in *. cbn [fst snd] in *.
    split; [done|]. rewrite !Forall_app. by split_and!.
  - rewrite bind_unfold.
    destruct (Hraise true fs1) as (e' & fs' & t & Hrun).
    specialize (Hprotected true fs1). rewrite Hrun in *. cbn [fst snd] in *.
    split; [done|]. rewrite !Forall_app. by split_and!.
Qed.

End Main.

Lemma get_series_type_range (goto : string → result Classifier.page)
    (e : Classifier.entry) (series_url ty : string) :
  Classifier.get_series_type goto e series_url = Return ty →
  ty ∈ ["eth"; "open"; "protected"; "none"].
Proof.
  unfold Classifier.get_series_type.
  repeat case_match; intros [= <-]; repeat constructor.
Qed.

(** X17: the classification loop only adds the type: when it returns,
    the list has the same series in the same order, each with its url,
    title and entries as before and with a [login_type] that is one of
    [eth], [open], [protected] and [none]; and the loop has written no
    file. *)
Theorem classification_sets_only_the_type (goto : string → result Classifier.page)
    (l l' : list series) (fs : files) :
  result_of (classify_all goto l) fs = Return l' →
  Forall2 (λ x x', url x' = url x ∧ title x' = title x ∧ entries x' = entries x ∧
                   login_type x' ∈ ["eth"; "open"; "protected"; "none"]) l l' ∧
  files_of (classify_all goto l) fs = fs.
Proof.
  intros Hrun. destruct (classify_all_spec goto l fs) as (Hfs & _ & Hall).
  split; [|done].
  eapply Forall2_impl; [by apply Hall|].
  intros x x' (e & rest & ty & _ & Hty & ->). simpl.
  split_and!; try done. by eapply get_series_type_range.
Qed.

Import Examples.

Lemma failed_probe_aborts_series_witness :
  let x := set_login_type "open" open_two in
  result_of (fetch_and_download demo_http demo_strptime_year demo_process_entry
               "/rec" "mid" (Some ["en-US"; "de-DE"]) "ogg" OpenPhase x x false) ∅
    = Raise TypeError ∧
  files_of (fetch_and_download demo_http demo_strptime_year demo_process_entry
              "/rec" "mid" (Some ["en-US"; "de-DE"]) "ogg" OpenPhase x x false) ∅
    = ∅.
Proof.
  intros x.
  destruct (failed_probe_aborts_series demo_http demo_strptime_year
              demo_process_entry "/rec" "mid" (Some ["en-US"; "de-DE"]) "ogg"
              OpenPhase x x false [entry_B0; entry_A1] entry_B0 AttributeError ∅)
    as (Hresult & Hfiles & _).
  - reflexivity.
  - left.
  - reflexivity.
  - split; [exact Hresult|exact Hfiles].
Defined.

Lemma failed_protected_login_blocks_eth_series_witness :
  result_of (locked_download_phases [locked_one; set_login_type "none" slow_one]) ∅
    ≠ Return tt ∧
  Forall before_eth
    (trace_of (locked_download_phases [locked_one; set_login_type "none" slow_one]) ∅).
Proof.
  apply (failed_protected_login_blocks_eth_series demo_http demo_strptime_year
           demo_process_entry (Return true) (λ _, Raise TimeoutError) (λ x, Return x)
           "/rec" "mid" (Some ["en-US"; "de-DE"]) "ogg"
           [locked_one; set_login_type "none" slow_one] locked_one TimeoutError ∅).
  - vm_compute. left.
  - reflexivity.
Defined.

Lemma classification_sets_only_the_type_witness :
  Forall2 (λ x x', url x' = url x ∧ title x' = title x ∧ entries x' = entries x ∧
                   login_type x' ∈ ["eth"; "open"; "protected"; "none"])
    [open_one; slow_one]
    [set_login_type "open" open_one; set_login_type "none" slow_one].
Proof.
  apply (classification_sets_only_the_type demo_goto [open_one; slow_one]
           [set_login_type "open" open_one; set_login_type "none" slow_one] ∅).
  vm_compute. reflexivity.
Defined.


End ScheduleFacts.

(** ** The urls file *)

Module UrlsFacts.

Import PyText PyStrFacts PyTextFacts Urls.

(** The entries of two runs of lines, one after the other. *)
Lemma parse_lines_app (before after : list string) :
  parse_lines (before ++ after) =
  match parse_lines before with
  | inl e => inl e
  | inr urls =>
    match parse_lines after with
    | inl e => inl e
    | inr more => inr (urls ++ more)
    end
  end.
Proof.
  induction before as [|line before IH]; simpl.
  - by destruct (parse_lines after).
  - destruct (bool_decide _ || _); [done|].
    destruct (split_ws (strip is_space line)) as [|w1 [|w2 [|w3 [|w4 ws]]]]; try done.
    + rewrite IH. destruct (parse_lines before); [done|].
      by destruct (parse_lines after).
    + rewrite IH. destruct (parse_lines before); [done|].
      by destruct (parse_lines after).
Qed.

Lemma parse_lines_skipped (line : string) (rest : list string) :
  skipped line → parse_lines (line :: rest) = parse_lines rest.
Proof.
  intros [Hblank | Hcomment]; simpl.
  - by rewrite Hblank.
  - rewrite Hcomment. by rewrite orb_true_r.
Qed.

Lemma parse_lines_well_formed (lines : list string) (urls : list entry) :
  parse_lines lines = inr urls → Forall well_formed urls.
Proof.
  revert urls. induction lines as [|line lines IH]; intros urls; simpl.
  - by intros [= <-].
  - destruct (bool_decide _) eqn:Hblank; simpl; [by apply IH|].
    destruct (String.prefix "#" (strip is_space line)) eqn:Hcomment; [by apply IH|].
    pose proof (split_ws_words (strip is_space line)) as Hwords.
    destruct (strip is_space line) as [|c s] eqn:Hline; [done|].
    destruct (split_ws_head c s) as (word & later & Hsplit);
      [by eapply strip_head|].
    rewrite Hsplit in Hwords |- *.
    assert (String.prefix "#" (String c word) = false) as Hurl.
    { rewrite prefix_cons in Hcomment |- *.
      destruct (Ascii.ascii_dec "#" c); [|done]. by destruct s. }
    apply Forall_cons in Hwords as [Hw1 Hwords].
    destruct later as [|w2 [|w3 [|w4 ws]]]; try done.
    + destruct (parse_lines lines) as [e|more]; [done|]. intros [= <-].
      constructor; [|by apply IH]. split_and!; simpl; auto.
    + apply Forall_cons in Hwords as [Hw2 Hwords].
      apply Forall_cons in Hwords as [Hw3 _].
      destruct (parse_lines lines) as [e|more]; [done|]. intros [= <-].
      constructor; [|by apply IH]. split_and!; simpl; [done..|].
      right. by exists w2, w3.
Qed.

(** X18: whichever file [get_urls] reads, every entry of the list it
    returns has a url that is not empty, holds no whitespace and does not
    start with the comment sign, and has either no credentials at all or
    both a username and a password, each not empty and without
    whitespace. *)
Theorem get_urls_well_formed (isfile : string → bool)
    (readlines : string → list string) (args_urls : option string)
    (urls_path : string) (urls : list entry) :
  get_urls isfile readlines args_urls urls_path = inr urls →
  Forall well_formed urls.
Proof.
  unfold get_urls.
  match goal with
  | |- match ?filepath with _ => _ end = _ → _ => destruct filepath as [path|]
  end; [|done].
  apply parse_lines_well_formed.
Qed.

(** X19: a blank line or a comment, anywhere in the file, changes nothing:
    the lines with it give what the lines without it give, entries and
    error alike. *)
Theorem comment_lines_are_skipped (before after : list string) (line : string) :
  skipped line →
  parse_lines (before ++ line :: after) = parse_lines (before ++ after).
Proof.
  intros Hline. by rewrite !parse_lines_app, parse_lines_skipped.
Qed.

(** X20: the first line that is neither skipped nor made of one or three
    words ends the reading with the [ValueError] that quotes it, stripped:
    the entries of the lines before it are not returned, and the lines
    after it are not looked at. *)
Theorem first_invalid_line_is_reported (before after : list string)
    (line : string) (urls : list entry) :
  parse_lines before = inr urls →
  ¬ skipped line →
  length (split_ws (strip is_space line)) ≠ 1%nat →
  length (split_ws (strip is_space line)) ≠ 3%nat →
  parse_lines (before ++ line :: after) = inl (InvalidLine (strip is_space line)).
Proof.
  intros Hbefore Hline Hone Hthree. rewrite parse_lines_app, Hbefore.
  simpl. unfold skipped in Hline.
  destruct (bool_decide (strip is_space line = EmptyString)) eqn:Hblank.
  { apply bool_decide_eq_true in Hblank. tauto. }
  destruct (String.prefix "#" (strip is_space line)) eqn:Hcomment; [tauto|].
  simpl.
  by destruct (split_ws (strip is_space line)) as [|w1 [|w2 [|w3 [|w4 ws]]]].
Qed.

Import Examples.

Lemma get_urls_well_formed_witness :
  get_urls demo_isfile demo_readlines None "/home/jane/.config/eth-videoz/urls"
  = inr [ {| url := "https://video.ethz.ch/open";
             username := None; password := None |};
          {| url := "https://video.ethz.ch/slow";
             username := Some "jane"; password := Some "s3cret" |} ] ∧
  Forall well_formed
    [ {| url := "https://video.ethz.ch/open";
         username := None; password := None |};
      {| url := "https://video.ethz.ch/slow";
         username := Some "jane"; password := Some "s3cret" |} ].
Proof.
  split; [vm_compute; reflexivity|].
  apply (get_urls_well_formed demo_isfile demo_readlines None
           "/home/jane/.config/eth-videoz/urls").
  vm_compute. reflexivity.
Defined.

Lemma comment_lines_are_skipped_witness :
  parse_lines (["https://video.ethz.ch/open" +:+ newline]
               ++ ("  # later" +:+ newline)
               :: ["https://video.ethz.ch/slow jane s3cret"])
  = parse_lines (["https://video.ethz.ch/open" +:+ newline]
                 ++ ["https://video.ethz.ch/slow jane s3cret"]).
Proof.
  apply comment_lines_are_skipped. right. vm_compute. reflexivity.
Defined.

Lemma first_invalid_line_is_reported_witness :
  parse_lines (["https://video.ethz.ch/open" +:+ newline]
               ++ ("https://video.ethz.ch/slow jane" +:+ newline)
               :: ["https://video.ethz.ch/more"])
  = inl (InvalidLine "https://video.ethz.ch/slow jane").
Proof.
  apply (first_invalid_line_is_reported
           ["https://video.ethz.ch/open" +:+ newline]
           ["https://video.ethz.ch/more"]
           ("https://video.ethz.ch/slow jane" +:+ newline)
           [ {| url := "https://video.ethz.ch/open";
                username := None; password := None |} ]).
  - vm_compute. reflexivity.
  - vm_compute. intros [H|H]; discriminate H.
  - vm_compute. lia.
  - vm_compute. lia.
Defined.

End UrlsFacts.

(** ** The series metadata *)

Module JsonFacts.

Import Json.

Section Values.

Context {number : Type}.
Variable nonzero : number → bool.

Local Abbreviation json := (json number).
Local Abbreviation block_entries := (block_entries nonzero).
Local Abbreviation extend_all := (extend_all nonzero).
Local Abbreviation extract_video_entries := (extract_video_entries nonzero).
Local Abbreviation holds := (holds nonzero).

Lemma extract_realm_of (blocks : list json) :
  extract_video_entries (realm_of blocks) = extend_all [] blocks.
Proof. reflexivity. Qed.

(** The entries found so far are kept, in front of what the loop adds. *)
Lemma extend_all_from (entries : list json) (blocks : list json) :
  extend_all entries blocks = (entries ++.) <$> extend_all [] blocks.
Proof.
  revert entries. induction blocks as [|block blocks IH]; intros entries; simpl.
  - by rewrite app_nil_r.
  - destruct (block_entries block) as [found|]; simpl; [|done].
    rewrite IH, (IH found).
    destruct (Json.extend_all nonzero [] blocks) as [later|]; simpl; [|done].
    by rewrite app_assoc.
Qed.

Lemma extend_all_app (entries : list json) (blocks1 blocks2 : list json) :
  extend_all entries (blocks1 ++ blocks2)
  = extend_all entries blocks1 ≫= λ found, extend_all found blocks2.
Proof.
  revert entries. induction blocks1 as [|block blocks1 IH]; intros entries; simpl.
  - done.
  - destruct (block_entries block) as [found|]; simpl; [|done]. apply IH.
Qed.

Lemma get_default_found (v : json) (key : string) (otherwise found : json) :
  getitem v key = Some found → get_default v key otherwise = Some found.
Proof. destruct v as [| | | | |pairs]; try done. simpl. by intros ->. Qed.

(** A dictionary with a key is not empty. *)
Lemma getitem_truthy (v : json) (key : string) (found : json) :
  getitem v key = Some found → truthy nonzero v = true.
Proof.
  destruct v as [| | | | |pairs]; try done. by destruct pairs.
Qed.

(** What one turn of the loop adds for a block that holds [entries]. *)
Lemma block_entries_holds (block : json) (entries : list json) :
  holds block entries → block_entries block = Some entries.
Proof.
  unfold Json.block_entries, block_is.
  intros [(series & Hty & Hseries & Hentries)
         |[(playlist & Hty & Hplaylist & Hentries)
          |(event & Hty & Hevent & Htruthy & ->)]];
    rewrite Hty; simpl.
  - rewrite (get_default_found block "series" JNull series Hseries). simpl.
    rewrite (getitem_truthy series "entries" _ Hentries), Hseries. simpl.
    by rewrite (get_default_found series "entries" _ _ Hentries).
  - rewrite (get_default_found block "playlist" JNull playlist Hplaylist). simpl.
    rewrite (getitem_truthy playlist "entries" _ Hentries), Hplaylist. simpl.
    by rewrite (get_default_found playlist "entries" _ _ Hentries).
  - rewrite (get_default_found block "event" JNull event Hevent). simpl.
    by rewrite Htruthy, Hevent.
Qed.

(** X21: the entries of a realm are those of its blocks, block after
    block: for a realm whose blocks are two lists one after the other,
    [extract_video_entries] returns the entries of the first list followed
    by those of the second, and [None] as soon as one of the two gives
    [None]. *)
Theorem entries_of_blocks_concatenate (blocks1 blocks2 : list json) :
  extract_video_entries (realm_of (blocks1 ++ blocks2))
  = entries1 ← extract_video_entries (realm_of blocks1);
    entries2 ← extract_video_entries (realm_of blocks2);
    Some (entries1 ++ entries2).
Proof.
  rewrite !extract_realm_of, extend_all_app.
  destruct (Json.extend_all nonzero [] blocks1) as [entries1|]; simpl; [|done].
  rewrite extend_all_from.
  by destruct (Json.extend_all nonzero [] blocks2).
Qed.

(** X22: a block whose [__typename] is none of [SeriesBlock],
    [PlaylistBlock] and [VideoBlock] (a text block, say, or a type that is
    not a string) adds nothing and breaks nothing: the realm with it gives
    what the realm without it gives. *)
Theorem other_blocks_add_nothing (blocks1 blocks2 : list json) (block ty : json) :
  getitem block "__typename" = Some ty →
  is_str ty "SeriesBlock" = false →
  is_str ty "PlaylistBlock" = false →
  is_str ty "VideoBlock" = false →
  extract_video_entries (realm_of (blocks1 ++ block :: blocks2))
  = extract_video_entries (realm_of (blocks1 ++ blocks2)).
Proof.
  intros Hty Hseries Hplaylist Hvideo.
  rewrite !extract_realm_of, !extend_all_app.
  destruct (Json.extend_all nonzero [] blocks1) as [entries1|]; simpl; [|done].
  unfold Json.block_entries, block_is.
  rewrite Hty. simpl. rewrite Hseries, Hplaylist, Hvideo. simpl.
  by rewrite app_nil_r.
Qed.

(** X23: one block without a [__typename] (a dictionary that lacks the
    key, or a value that is not a dictionary) loses the entries of all the
    others: [extract_video_entries] returns [None], wherever the block is
    and whatever the other blocks hold. *)
Theorem block_without_typename_loses_all (blocks1 blocks2 : list json) (block : json) :
  getitem block "__typename" = None →
  extract_video_entries (realm_of (blocks1 ++ block :: blocks2)) = None.
Proof.
  intros Hty. rewrite extract_realm_of, extend_all_app.
  destruct (Json.extend_all nonzero [] blocks1) as [entries1|]; simpl; [|done].
  unfold Json.block_entries, block_is. by rewrite Hty.
Qed.

(** X24: for a realm made of series, playlists and videos as the portal
    sends them, [extract_video_entries] returns all their entries, in the
    order of the blocks and, within a block, in the order of its list. *)
Theorem blocks_give_their_entries (blocks : list json) (found : list (list json)) :
  Forall2 holds blocks found →
  extract_video_entries (realm_of blocks) = Some (concat found).
Proof.
  rewrite extract_realm_of.
  induction 1 as [|block entries blocks found Hblock _ IH]; simpl; [done|].
  rewrite (block_entries_holds block entries Hblock). simpl.
  by rewrite extend_all_from, IH.
Qed.

End Values.

Import Examples.

Lemma other_blocks_add_nothing_witness :
  extract_video_entries demo_nonzero (realm_of ([series_block] ++ text_block :: [video_block]))
  = extract_video_entries demo_nonzero (realm_of ([series_block] ++ [video_block])).
Proof.
  apply (other_blocks_add_nothing demo_nonzero [series_block] [video_block]
           text_block (JString "TextBlock")); reflexivity.
Defined.

Lemma block_without_typename_loses_all_witness :
  extract_video_entries demo_nonzero
    (realm_of ([series_block] ++ broken_block :: [video_block])) = None.
Proof.
  apply (block_without_typename_loses_all demo_nonzero). reflexivity.
Defined.

Lemma blocks_give_their_entries_witness :
  extract_video_entries demo_nonzero (realm_of [series_block; video_block])
  = Some [event_of "evA1"; event_of "evB0"; event_of "evC2"].
Proof.
  apply (blocks_give_their_entries demo_nonzero [series_block; video_block]
           [[event_of "evA1"; event_of "evB0"]; [event_of "evC2"]]).
  constructor; [|constructor; [|constructor]].
  - left. eexists. repeat split; reflexivity.
  - right. right. eexists. repeat split; reflexivity.
Defined.

End JsonFacts.

(** ** The download dialog *)

Module DialogFacts.

Import PyStr PyText PyStrFacts PyTextFacts Dialog.

Local Abbreviation chars := list_ascii_of_string.

(** [subtitle_language] of the label of a caption link. *)
Lemma subtitle_language_of_caption (language : string) :
  Forall (λ c, one_of "()" c = false) (chars language) →
  subtitle_language ("Caption (" +:+ language +:+ ")") = language.
Proof.
  intros Hlang. unfold subtitle_language.
  change ("Caption (" +:+ language +:+ ")")
    with ("Caption " +:+ String "(" (language +:+ ")")).
  rewrite lstrip_app_all by (vm_compute; repeat constructor).
  rewrite lstrip_kept by reflexivity.
  unfold strip.
  destruct language as [|c language]; [reflexivity|].
  apply Forall_cons in Hlang as [Hc Hlang].
  change (lstrip (one_of "()") (String "(" (String c language +:+ ")")))
    with (lstrip (one_of "()") (String c (language +:+ ")"))).
  rewrite lstrip_kept by done.
  change (String c (language +:+ ")")) with (String c language +:+ ")").
  rewrite rstrip_app_all by (vm_compute; repeat constructor).
  apply rstrip_id. by constructor.
Qed.

Lemma scrape_link_filed (links : list link) (l : link) (found found' : sources) :
  l ∈ links →
  filed links found →
  scrape_link l found = Return found' →
  filed links found'.
Proof.
  intros Hl (Hvideo & Hsubtitle & Haudio). unfold scrape_link.
  destruct (href l) as [url|] eqn:Hhref.
  2:{ destruct (_ || _); [done|]. by intros [= <-]. }
  destruct (contains "Video" _ && endswith ".mp4" url) eqn:Hv.
  { apply andb_prop in Hv as [_ Hv]. intros [= <-].
    split_and!; simpl; [|done..].
    intros quality url' [[<- <-]|[_ Hold]]%lookup_insert_Some; [|by apply Hvideo].
    split_and!; [|done|by exists l].
    unfold video_quality. repeat case_match; repeat constructor. }
  destruct (contains "Caption" _ && endswith ".vtt" url) eqn:Hc.
  { apply andb_prop in Hc as [_ Hc]. intros [= <-].
    split_and!; simpl; [done| |done].
    intros language url' [[<- <-]|[_ Hold]]%lookup_insert_Some; [|by eapply Hsubtitle].
    split; [done|by exists l]. }
  destruct (contains "Audio" _).
  { intros [= <-].
    split_and!; simpl; [done..|].
    intros quality url' [[<- <-]|[_ Hold]]%lookup_insert_Some; [|by apply Haudio].
    split; [done|by exists l]. }
  by intros [= <-].
Qed.

Lemma scrape_links_filed (all links : list link) (found found' : sources) :
  links ⊆ all →
  filed all found →
  scrape_links links found = Return found' →
  filed all found'.
Proof.
  revert found. induction links as [|l links IH]; intros found Hsub Hfound; simpl.
  - by intros [= <-].
  - destruct (scrape_link l found) as [found1|e] eqn:Hl; [|done].
    apply IH; [by intros l' Hl'; apply Hsub; right|].
    eapply scrape_link_filed; [|done..]. apply Hsub. left.
Qed.

Lemma filed_no_sources (links : list link) : filed links no_sources.
Proof. split_and!; intros ? ?; simpl; by rewrite lookup_empty. Qed.

(** X25: when the loop over the links of a dialog returns, every source
    it kept is the [href] of one of the links; every video source ends in
    [.mp4] and is filed under [low], [mid], [high] or [unknown]; every
    subtitle source ends in [.vtt]; every audio source is filed under the
    quality its own ending gives. *)
Theorem scraped_sources_are_filed (links : list link) (found : sources) :
  scrape_links links no_sources = Return found → filed links found.
Proof.
  apply scrape_links_filed; [done|apply filed_no_sources].
Qed.

(** X26: the page scrape and the item download agree on videos: for every
    video source the loop kept, the extension
    [download_video_subtitles_and_maybe_audio] reads off the url (what
    follows its last dot) is [mp4]. *)
Theorem scraped_video_has_extension_mp4 (links : list link) (found : sources)
    (quality url : string) :
  scrape_links links no_sources = Return found →
  video_sources found !! quality = Some url →
  after_last "." url = Some "mp4".
Proof.
  intros Hrun Hsource.
  apply (scrape_links_filed links) in Hrun as (Hvideo & _ & _);
    [|done|apply filed_no_sources].
  destruct (Hvideo _ _ Hsource) as (_ & [stem ->]%endswith_suffix & _).
  apply (after_last_append "." stem "mp4"). by repeat constructor.
Qed.

(** X27: a link labelled [Caption (language)] whose [href] ends in [.vtt]
    is filed as the subtitle of exactly that language, for every language
    code without a parenthesis; the other two dictionaries are left as
    they are, and an earlier subtitle of the language is replaced. *)
Theorem caption_is_filed_under_its_language (language url : string)
    (found : sources) :
  Forall (λ c, one_of "()" c = false) (chars language) →
  endswith ".vtt" url = true →
  scrape_link {| href := Some url;
                 text_content := "Caption (" +:+ language +:+ ")" |} found
  = Return {| video_sources := video_sources found;
              subtitle_sources := <[language := url]> (subtitle_sources found);
              audio_sources := audio_sources found |}.
Proof.
  intros Hlang Hvtt. unfold scrape_link. simpl.
  assert (strip is_space ("Caption (" +:+ language +:+ ")")
          = "Caption (" +:+ language +:+ ")") as ->.
  { unfold strip.
    change ("Caption (" +:+ language +:+ ")")
      with (String "C" ("aption (" +:+ language +:+ ")")).
    rewrite lstrip_kept by reflexivity.
    change (String "C" ("aption (" +:+ language +:+ ")"))
      with (("Caption (" +:+ language) +:+ ")").
    by apply rstrip_nonempty. }
  assert (endswith ".mp4" url = false) as ->.
  { destruct (endswith ".mp4" url) eqn:Hmp4; [|done].
    by pose proof (endswith_same_length ".mp4" ".vtt" url eq_refl Hmp4 Hvtt). }
  rewrite andb_false_r, Hvtt.
  assert (contains "Caption" ("Caption (" +:+ language +:+ ")") = true) as ->.
  { apply contains_prefix.
    change ("Caption (" +:+ language +:+ ")")
      with ("Caption" +:+ (" (" +:+ language +:+ ")")).
    apply prefix_append. }
  simpl. by rewrite subtitle_language_of_caption.
Qed.

Import Examples.

Lemma scraped_sources_are_filed_witness :
  scrape_links demo_links no_sources = Return demo_sources ∧
  filed demo_links demo_sources.
Proof.
  split; [vm_compute; reflexivity|].
  apply (scraped_sources_are_filed demo_links demo_sources).
  vm_compute. reflexivity.
Defined.

Lemma scraped_video_has_extension_mp4_witness :
  after_last "." "https://cdn.ethz.ch/A1_1280.mp4" = Some "mp4".
Proof.
  apply (scraped_video_has_extension_mp4 demo_links demo_sources "mid"
           "https://cdn.ethz.ch/A1_1280.mp4").
  - vm_compute. reflexivity.
  - vm_compute. reflexivity.
Defined.

Lemma caption_is_filed_under_its_language_witness :
  scrape_link {| href := Some "https://cdn.ethz.ch/A1.vtt";
                 text_content := "Caption (" +:+ "en-US" +:+ ")" |} no_sources
  = Return {| video_sources := ∅;
              subtitle_sources := <["en-US" := "https://cdn.ethz.ch/A1.vtt"]> ∅;
              audio_sources := ∅ |}.
Proof.
  apply (caption_is_filed_under_its_language "en-US"
           "https://cdn.ethz.ch/A1.vtt" no_sources).
  - vm_compute. repeat constructor.
  - reflexivity.
Defined.

End DialogFacts.

(** ** The star notice *)

Module NoticeFacts.

Import PyStr PyText PyStrFacts PyTextFacts Notice.

Local Abbreviation chars := list_ascii_of_string.









Section Counter.

Variable max_str_digits : nat.

Local Abbreviation starme_notice := (starme_notice max_str_digits).
Local Abbreviation int := (int max_str_digits).





(** X30: a first line that is the marker followed by whitespace only (the
    counter deleted by hand, say) ends [main] with an [IndexError]: the
    stripped line no longer holds the marker, whose last character is a
    space, so the split gives one piece and the index 1 is out of range;
    the subscript is outside the [try]. *)
Theorem empty_counter_raises (text spaces : string) :
  (readline text).1 = marker +:+ spaces →
  Forall (λ c, is_space c = true) (chars spaces) →
  starme_notice (Some text) = Raise IndexError.
Proof.
  intros Hline Hspaces. unfold Notice.starme_notice.
  rewrite Hline, prefix_append.
  assert (strip is_space (marker +:+ spaces) = "### starme =") as ->; [|done].
  unfold strip.
  change (marker +:+ spaces) with (String "#" ("## starme = " +:+ spaces)).
  rewrite lstrip_kept by reflexivity.
  change (String "#" ("## starme = " +:+ spaces)) with (marker +:+ spaces).
  by rewrite rstrip_app_all.
Qed.

End Counter.



Lemma empty_counter_raises_witness :
  starme_notice 4300
    (Some ("### starme = " +:+ newline +:+ "https://video.ethz.ch/open"))
  = Raise IndexError.
Proof.
  apply (empty_counter_raises 4300
           ("### starme = " +:+ newline +:+ "https://video.ethz.ch/open") newline).
  - reflexivity.
  - vm_compute. repeat constructor.
Defined.

End NoticeFacts.
